(** * COSMOS2: the Task model (cosmos/models/Task.py)

    A shallow embedding of the Task life cycle of COSMOS2: the status
    property and its setter, the receiver [task_status_changed] connected to
    [signal_task_status_change], the per-attempt artifact paths, the
    memoised [profile] property and [successors].

    Python objects live in a store: Tasks and Stages are records in finite
    maps keyed by object identity, and every attribute assignment of the
    source is an update of that store, so that the aliasing between
    [task.stage.tasks] and [task] is the one of the program.  Effects go
    through a state-and-exception monad over the store. *)

From Stdlib Require Import ZArith Lia Ascii String.
From stdpp Require Import base option list gmap strings pretty.

(** ** Enumerations *)

(** Modelled from the spec: [TaskStatus] is declared in cosmos/__init__.py,
    which is not among the sources at hand.  Section 4.2 lists the states
    [no_attempt] (initial), [waiting], [submitted], [successful] and
    [failed]; these are also the five members Task.py names. *)
Module TaskStatus.
Inductive t := no_attempt | waiting | submitted | successful | failed.
#[export] Instance eq_dec : EqDecision t.
Proof. solve_decision. Defined.
End TaskStatus.
Export (hints) TaskStatus.

(** Modelled from the spec: [StageStatus] is declared in cosmos/__init__.py.
    Section 4.3 lists [no_attempt] (the default), [running], [successful]
    and [failed]. *)
Module StageStatus.
Inductive t := no_attempt | running | successful | failed.
#[export] Instance eq_dec : EqDecision t.
Proof. solve_decision. Defined.
End StageStatus.
Export (hints) StageStatus.

(** ** Paths: [os.path.splitext], [os.path.join] and [logplus] *)

Definition dot : ascii := "."%char.
Definition slash : ascii := "/"%char.

(** [rsplit_at c s] cuts [s] at the last occurrence of [c]: the part before
    it and the part from it on ([None] when [c] does not occur). *)
Fixpoint rsplit_at (c : ascii) (s : list ascii) : option (list ascii * list ascii) :=
  match s with
  | [] => None
  | x :: s' =>
      match rsplit_at c s' with
      | Some (pre, post) => Some (x :: pre, post)
      | None => if decide (x = c) then Some ([], x :: s') else None
      end
  end.

(** posixpath.splitext: the extension starts at the last dot of the last
    path component, unless that component has only dots before it. *)
Definition splitext (p : string) : string * string :=
  let l := list_ascii_of_string p in
  let base := match rsplit_at slash l with
              | Some (_, post) => drop 1 post
              | None => l
              end in
  match rsplit_at dot base with
  | Some (stem, ext) =>
      if forallb (λ x, bool_decide (x = dot)) stem then (p, EmptyString)
      else (string_of_list_ascii (take (length l - length ext) l),
            string_of_list_ascii ext)
  | None => (p, EmptyString)
  end.

Definition endswith_slash (s : string) : bool :=
  match last (list_ascii_of_string s) with
  | Some c => bool_decide (c = slash)
  | None => false
  end.

Definition startswith_slash (s : string) : bool :=
  match s with
  | String c _ => bool_decide (c = slash)
  | EmptyString => false
  end.

(** posixpath.join on two components ([opj] in the source). *)
Definition opj (a b : string) : string :=
  if startswith_slash b then b
  else if bool_decide (a = EmptyString) || endswith_slash a then a +:+ b
  else a +:+ "/" +:+ b.

(** ** The objects *)

(** A parsed usage report: the counters by name. *)
Abbreviation Profile := (gmap string Z).

Record Task := mkTask {
  NOOP : bool;
  stage : nat;                         (* reference to the owning Stage *)
  log_dir : string;
  output_dir : string;
  _status : TaskStatus.t;
  successful : bool;
  started_on : option nat;
  submitted_on : option nat;
  finished_on : option nat;
  attempt : Z;
  must_succeed : bool;
  drm : string;
  drm_jobID : option Z;
  children : list nat;                 (* backref of [parents] *)
  _cache_profile : option Profile
}.

(** A Task as the database creates it: the column defaults of the class. *)
Definition new_task (stage : nat) (log_dir output_dir drm : string) : Task :=
  {| NOOP := false; stage := stage; log_dir := log_dir; output_dir := output_dir;
     _status := TaskStatus.no_attempt; successful := false;
     started_on := None; submitted_on := None; finished_on := None;
     attempt := 1%Z; must_succeed := true; drm := drm; drm_jobID := None;
     children := []; _cache_profile := None |}.

Definition set__status (v : TaskStatus.t) (t : Task) : Task :=
  {| NOOP := NOOP t; stage := stage t; log_dir := log_dir t; output_dir := output_dir t;
     _status := v; successful := successful t;
     started_on := started_on t; submitted_on := submitted_on t; finished_on := finished_on t;
     attempt := attempt t; must_succeed := must_succeed t; drm := drm t; drm_jobID := drm_jobID t;
     children := children t; _cache_profile := _cache_profile t |}.

Definition set_successful (v : bool) (t : Task) : Task :=
  {| NOOP := NOOP t; stage := stage t; log_dir := log_dir t; output_dir := output_dir t;
     _status := _status t; successful := v;
     started_on := started_on t; submitted_on := submitted_on t; finished_on := finished_on t;
     attempt := attempt t; must_succeed := must_succeed t; drm := drm t; drm_jobID := drm_jobID t;
     children := children t; _cache_profile := _cache_profile t |}.

Definition set_started_on (v : option nat) (t : Task) : Task :=
  {| NOOP := NOOP t; stage := stage t; log_dir := log_dir t; output_dir := output_dir t;
     _status := _status t; successful := successful t;
     started_on := v; submitted_on := submitted_on t; finished_on := finished_on t;
     attempt := attempt t; must_succeed := must_succeed t; drm := drm t; drm_jobID := drm_jobID t;
     children := children t; _cache_profile := _cache_profile t |}.

Definition set_submitted_on (v : option nat) (t : Task) : Task :=
  {| NOOP := NOOP t; stage := stage t; log_dir := log_dir t; output_dir := output_dir t;
     _status := _status t; successful := successful t;
     started_on := started_on t; submitted_on := v; finished_on := finished_on t;
     attempt := attempt t; must_succeed := must_succeed t; drm := drm t; drm_jobID := drm_jobID t;
     children := children t; _cache_profile := _cache_profile t |}.

Definition set_finished_on (v : option nat) (t : Task) : Task :=
  {| NOOP := NOOP t; stage := stage t; log_dir := log_dir t; output_dir := output_dir t;
     _status := _status t; successful := successful t;
     started_on := started_on t; submitted_on := submitted_on t; finished_on := v;
     attempt := attempt t; must_succeed := must_succeed t; drm := drm t; drm_jobID := drm_jobID t;
     children := children t; _cache_profile := _cache_profile t |}.

Definition set_attempt (v : Z) (t : Task) : Task :=
  {| NOOP := NOOP t; stage := stage t; log_dir := log_dir t; output_dir := output_dir t;
     _status := _status t; successful := successful t;
     started_on := started_on t; submitted_on := submitted_on t; finished_on := finished_on t;
     attempt := v; must_succeed := must_succeed t; drm := drm t; drm_jobID := drm_jobID t;
     children := children t; _cache_profile := _cache_profile t |}.

Definition set__cache_profile (v : option Profile) (t : Task) : Task :=
  {| NOOP := NOOP t; stage := stage t; log_dir := log_dir t; output_dir := output_dir t;
     _status := _status t; successful := successful t;
     started_on := started_on t; submitted_on := submitted_on t; finished_on := finished_on t;
     attempt := attempt t; must_succeed := must_succeed t; drm := drm t; drm_jobID := drm_jobID t;
     children := children t; _cache_profile := v |}.

(** [logplus(filename)]: the property it builds, at a Task. *)
Definition logplus (filename : string) (self : Task) : string :=
  let '(prefix, suffix) := splitext filename in
  opj (log_dir self) (prefix +:+ "_attempt" +:+ pretty (attempt self) +:+ suffix).

Definition output_profile_path := logplus "profile.json".
Definition output_command_script_path := logplus "command.bash".
Definition output_stderr_path := logplus "stderr.txt".
Definition output_stdout_path := logplus "stdout.txt".

(** Modelled from the spec: the Stage class (cosmos/models/Stage.py) is not
    among the sources at hand.  Section 3: a Stage has a name and a
    [status], an enum field that the receiver assigns; its Tasks are the
    Tasks whose [stage] is this Stage (the backref of [Task.stage]). *)
Record Stage := mkStage {
  name : string;
  status : StageStatus.t
}.

(** ** Log records, events and the store *)

Inductive Level := INFO | WARN | ERROR.

(** What [task_failed_printout.format(task)] interpolates. *)
Record FailureInfo := mkFailureInfo {
  fi_command_path : string;
  fi_drm_jobID : option Z;
  fi_command_script_text : string;
  fi_stdout_path : string;
  fi_stdout_text : string;
  fi_stderr_path : string;
  fi_stderr_text : string;
  fi_output_dir : string
}.

(** The messages of the module, by format string, with their arguments. *)
Inductive Msg :=
  | MsgStatus (task : nat) (st : TaskStatus.t)
      (* '%s %s' % (task, task.status) *)
  | MsgSubmitted (task : nat) (st : TaskStatus.t) (drm : string) (jobid : option Z)
      (* '%s %s. drm=%s; drm_jobid=%s' *)
  | MsgToleratedFailure (task : nat)
      (* '%s failed, but must_succeed is False' *)
  | MsgFailurePrintout (info : FailureInfo)
      (* task_failed_printout.format(task) *)
  | MsgAttemptFailed (task : nat) (attempt max_attempts : Z)
      (* '%s attempt #%s failed (max_attempts=%s)' *)
  | MsgTooManyFailures (task : nat)
      (* '%s has failed too many times' *)
  | MsgNoProfile (path : string).
      (* '%s does not exist on the filesystem' *)

(** What the module does to the outside, in program order. *)
Inductive Event :=
  | EvLog (lvl : Level) (m : Msg)              (* execution.log *)
  | EvSignal (task : nat) (st : TaskStatus.t)  (* signal_task_status_change.send(task),
                                                  with the status the receivers see *)
  | EvWaitForFile (path : string) (timeout : nat) (error : option bool)
  | EvExists (path : string)                   (* os.path.exists *)
  | EvOpen (path : string).                    (* open(path, 'r') *)

(** A file of the shared file system becomes visible at some time: the
    back end writes its artifacts asynchronously. *)
Record File := mkFile {
  visible_from : nat;
  content : string
}.

(** The store of one Execution, with what the module sees of the outside.

    Modelled from the spec: the Execution class (cosmos/models/Execution.py)
    is not among the sources at hand.  Section 3 gives it [max_attempts],
    the retry ceiling shared by all Tasks, and the log; every Stage of the
    store belongs to this Execution.  The log records and the other effects
    of a run are kept in [trace], in program order; [clock] is the time
    [func.now()] reads, and [fs] the shared file system. *)
Record World := mkWorld {
  tasks : gmap nat Task;
  stages : gmap nat Stage;
  max_attempts : Z;                    (* execution.max_attempts *)
  clock : nat;
  fs : gmap string File;
  trace : list Event
}.

Definition set_tasks (m : gmap nat Task) (w : World) : World :=
  {| tasks := m; stages := stages w; max_attempts := max_attempts w;
     clock := clock w; fs := fs w; trace := trace w |}.

Definition set_stages (m : gmap nat Stage) (w : World) : World :=
  {| tasks := tasks w; stages := m; max_attempts := max_attempts w;
     clock := clock w; fs := fs w; trace := trace w |}.

Definition set_clock (c : nat) (w : World) : World :=
  {| tasks := tasks w; stages := stages w; max_attempts := max_attempts w;
     clock := c; fs := fs w; trace := trace w |}.

Definition set_trace (tr : list Event) (w : World) : World :=
  {| tasks := tasks w; stages := stages w; max_attempts := max_attempts w;
     clock := clock w; fs := fs w; trace := tr |}.

(** ** The monad *)

Inductive Exn :=
  | AttributeError     (* a reference to an object that is not in the store *)
  | RecursionError     (* setter and receiver nested deeper than the bound *)
  | ValueError         (* json.load on a malformed report *)
  | Unfinished.        (* a loop that did not end within its bound *)

Inductive Result (A : Type) :=
  | Ok (a : A)
  | Raise (e : Exn).
Arguments Ok {A} a.
Arguments Raise {A} e.

Definition M (A : Type) : Type := World → Result (A * World).

#[export] Instance M_ret : MRet M := λ A a w, Ok (a, w).
#[export] Instance M_bind : MBind M := λ A B f m w,
  match m w with
  | Ok (a, w') => f a w'
  | Raise e => Raise e
  end.

Definition raise {A} (e : Exn) : M A := λ _, Raise e.
Definition get_world : M World := λ w, Ok (w, w).
Definition put_world (w : World) : M unit := λ _, Ok (tt, w).

Definition when (b : bool) (m : M unit) : M unit :=
  if b then m else mret tt.

Definition emit (e : Event) : M unit :=
  w ← get_world; put_world (set_trace (trace w ++ [e]) w).

(** Dereferencing a Task reference. *)
Definition get_task (tid : nat) : M Task :=
  w ← get_world;
  match tasks w !! tid with
  | Some t => mret t
  | None => raise AttributeError
  end.

(** An attribute assignment [task.x = v] on the object [tid]. *)
Definition modify_task (tid : nat) (f : Task → Task) : M unit :=
  t ← get_task tid;
  w ← get_world; put_world (set_tasks (<[tid := f t]> (tasks w)) w).

Definition get_stage (sid : nat) : M Stage :=
  w ← get_world;
  match stages w !! sid with
  | Some s => mret s
  | None => raise AttributeError
  end.

(** [task.stage.status = v]. *)
Definition set_stage_status (sid : nat) (v : StageStatus.t) : M unit :=
  s ← get_stage sid;
  w ← get_world;
  put_world (set_stages (<[sid := {| name := name s; status := v |}]> (stages w)) w).

(** [stage.tasks]: the Task objects whose [stage] is [sid]. *)
Definition stage_tasks (sid : nat) : M (list Task) :=
  _ ← get_stage sid;
  w ← get_world;
  mret (filter (λ t, stage t = sid) (map_to_list (tasks w)).*2).

(** [task.execution], that is [task.stage.execution]: the Stage is
    dereferenced, the Execution is the one of the store. *)
Definition execution (self : Task) : M unit :=
  _ ← get_stage (stage self); mret tt.

Definition get_max_attempts (self : Task) : M Z :=
  execution self;; w ← get_world; mret (max_attempts w).

(** [task.log.info], [task.log.warn], [task.log.error]. *)
Definition log (self : Task) (lvl : Level) (m : Msg) : M unit :=
  execution self;; emit (EvLog lvl m).

(** [func.now()]. *)
Definition func_now : M nat :=
  w ← get_world; mret (clock w).

(** ** The file system *)

Definition is_space (c : ascii) : bool :=
  bool_decide (c ∈ [" "%char; "009"%char; "010"%char; "011"%char; "012"%char; "013"%char]).

Fixpoint lstrip (s : list ascii) : list ascii :=
  match s with
  | c :: s' => if is_space c then lstrip s' else s
  | [] => []
  end.

(** [str.strip()]. *)
Definition strip (s : string) : string :=
  string_of_list_ascii (rev (lstrip (rev (lstrip (list_ascii_of_string s))))).

(** [os.path.exists(path)] at the current time. *)
Definition path_exists (w : World) (path : string) : bool :=
  match fs w !! path with
  | Some f => bool_decide (visible_from f ≤ clock w)%nat
  | None => false
  end.

Definition readfile (path : string) : M string :=
  emit (EvExists path);;
  w ← get_world;
  if negb (path_exists w path) then mret "file does not exist"
  else
    emit (EvOpen path);;
    mret (from_option content EmptyString (fs w !! path)).

Definition stdout_text (self : Task) : M string :=
  s ← readfile (output_stdout_path self); mret (strip s).

Definition stderr_text (self : Task) : M string :=
  s ← readfile (output_stderr_path self); mret (strip s).

Definition command_script_text (self : Task) : M string :=
  s ← readfile (output_command_script_path self); mret (strip s).

(** [task_failed_printout.format(task)]: the fields are read in the order
    of the template. *)
Definition task_failed_printout (self : Task) : M Msg :=
  cmd ← command_script_text self;
  out ← stdout_text self;
  err ← stderr_text self;
  mret (MsgFailurePrintout
    {| fi_command_path := output_command_script_path self;
       fi_drm_jobID := drm_jobID self;
       fi_command_script_text := cmd;
       fi_stdout_path := output_stdout_path self;
       fi_stdout_text := out;
       fi_stderr_path := output_stderr_path self;
       fi_stderr_text := err;
       fi_output_dir := output_dir self |}).

(** Modelled from the spec: [wait_for_file] is defined in
    cosmos/util/helpers.py, which is not among the sources at hand.
    Section 6: [waitForFile(path, timeoutSeconds) -> exists: bool], which
    must not throw on timeout, only return false; section 5: it polls with
    an upper bound on the total wait.  The wait ends when the file is
    visible, or [timeout] time units after it began.  The keyword [error]
    of the call in [profile] is recorded ([None] when the call does not
    pass it); the spec gives it no effect. *)
Definition wait_for_file (self : Task) (path : string) (timeout : nat)
    (error : option bool) : M bool :=
  execution self;;
  emit (EvWaitForFile path timeout error);;
  w ← get_world;
  match fs w !! path with
  | Some f =>
      if decide (visible_from f ≤ clock w + timeout)%nat
      then put_world (set_clock (clock w `max` visible_from f)%nat w);; mret true
      else put_world (set_clock (clock w + timeout)%nat w);; mret false
  | None => put_world (set_clock (clock w + timeout)%nat w);; mret false
  end.

(** ** The receiver of [signal_task_status_change] *)

(** [all(t.successful or not t.must_succeed for t in task.stage.tasks)]. *)
Definition all_successful_or_optional (ts : list Task) : bool :=
  forallb (λ t, successful t || negb (must_succeed t)) ts.

(** [task_status_changed(task)].  The assignment [task.status = ...] of the
    retry branch goes through the property setter, which the receiver gets
    as [set_status]. *)
Definition task_status_changed (set_status : nat → TaskStatus.t → M unit)
    (tid : nat) : M unit :=
  task ← get_task tid;
  when (bool_decide (_status task = TaskStatus.successful))
    (when (negb (NOOP task))
       (log task INFO (MsgStatus tid (_status task))));;
  match _status task with
  | TaskStatus.waiting =>
      now ← func_now;
      modify_task tid (set_started_on (Some now))
  | TaskStatus.submitted =>
      when (negb (NOOP task))
        (log task INFO (MsgSubmitted tid (_status task) (drm task) (drm_jobID task)));;
      now ← func_now;
      modify_task tid (set_submitted_on (Some now));;
      set_stage_status (stage task) StageStatus.running
  | TaskStatus.failed =>
      if negb (must_succeed task) then
        log task WARN (MsgToleratedFailure tid);;
        printout ← task_failed_printout task;
        log task WARN printout;;
        now ← func_now;
        modify_task tid (set_finished_on (Some now))
      else
        max ← get_max_attempts task;
        log task WARN (MsgAttemptFailed tid (attempt task) max);;
        if bool_decide (attempt task < max)%Z then
          printout ← task_failed_printout task;
          log task WARN printout;;
          modify_task tid (set_attempt (attempt task + 1)%Z);;
          set_status tid TaskStatus.no_attempt
        else
          wait_for_file task (output_stderr_path task) 60 None;;
          printout ← task_failed_printout task;
          log task WARN printout;;
          log task ERROR (MsgTooManyFailures tid);;
          now ← func_now;
          modify_task tid (set_finished_on (Some now));;
          set_stage_status (stage task) StageStatus.failed
  | TaskStatus.successful =>
      modify_task tid (set_successful true);;
      now ← func_now;
      modify_task tid (set_finished_on (Some now));;
      ts ← stage_tasks (stage task);
      when (all_successful_or_optional ts)
        (set_stage_status (stage task) StageStatus.successful)
  | TaskStatus.no_attempt => mret tt
  end.

(** [signal_task_status_change.send(task)]: the receiver connected in this
    module runs synchronously. *)
Definition signal_send (set_status : nat → TaskStatus.t → M unit) (tid : nat) : M unit :=
  task ← get_task tid;
  emit (EvSignal tid (_status task));;
  task_status_changed set_status tid.

(** ** The [status] property *)


(** [set_status(self, value)].  The setter and the receiver call each
    other; [depth] bounds the nesting of the calls, and a deeper nesting is
    a [RecursionError]. *)
Fixpoint set_status (depth : nat) (tid : nat) (value : TaskStatus.t) : M unit :=
  match depth with
  | O => raise RecursionError
  | S depth' =>
      self ← get_task tid;
      if decide (_status self ≠ value) then
        modify_task tid (set__status value);;
        signal_send (set_status depth') tid
      else mret tt
  end.


(** ** The input files *)




(** ** The [profile] property *)

Section profile.
(** [json.load] on the text of a file: [None] when the text is not a JSON
    object, for which the library raises. *)
Variable json_load : string → option Profile.

Definition profile (tid : nat) : M Profile :=
  self ← get_task tid;
  if NOOP self then mret (∅ : Profile)
  else
    match _cache_profile self with
    | None =>
        found ← wait_for_file self (output_profile_path self) 60 (Some false);
        if found : bool then
          emit (EvOpen (output_profile_path self));;
          w ← get_world;
          match json_load (from_option content EmptyString
                             (fs w !! output_profile_path self)) with
          | Some p =>
              modify_task tid (set__cache_profile (Some p));;
              self' ← get_task tid;
              mret (default ∅ (_cache_profile self'))
          | None => raise ValueError
          end
        else
          log self WARN (MsgNoProfile (output_profile_path self));;
          mret ∅
    | Some p => mret p
    end.
End profile.

(** ** The task graph and [successors] *)








(** [Task.successors(self)].  The graph is [self.ex.task_graph()].  Task.py
    declares no attribute [ex]: the Execution of a Task is its property
    [execution] (lines 196-198), and whether another model gives the class
    a back-reference of that name is not decided by this module.  The call
    is therefore the parameter [ex_task_graph], a computation that returns
    a graph or raises. *)
Section successors.
Variable ex_task_graph : nat → M (gmap nat (list nat)).

End successors.



(** ** Callers *)

(** A caller that assigns [task.status = v] for each pair of the list, in
    order: the monitor and the submission loop, which are outside this
    module. *)
Fixpoint assign_all (depth : nat) (l : list (nat * TaskStatus.t)) : M unit :=
  match l with
  | [] => mret tt
  | (tid, v) :: l' => set_status depth tid v;; assign_all depth l'
  end.

(** The references of the store are valid: every Task has its Stage. *)
Definition wf (w : World) : Prop :=
  map_Forall (λ _ t, is_Some (stages w !! stage t)) (tasks w).

#[export] Instance wf_dec w : Decision (wf w).
Proof. unfold wf. apply _. Defined.

(** The status of a Stage of the store. *)
Definition stage_status (w : World) (sid : nat) : option StageStatus.t :=
  status <$> stages w !! sid.

(** ** What a run leaves behind: the texts and events of [readfile] *)

Definition read_text (files : gmap string File) (now : nat) (path : string) : string :=
  match files !! path with
  | Some f => if bool_decide (visible_from f ≤ now)%nat then content f
              else "file does not exist"
  | None => "file does not exist"
  end.

Definition read_events (files : gmap string File) (now : nat) (path : string) : list Event :=
  match files !! path with
  | Some f => if bool_decide (visible_from f ≤ now)%nat then [EvExists path; EvOpen path]
              else [EvExists path]
  | None => [EvExists path]
  end.

Definition printout_events (files : gmap string File) (now : nat) (t : Task) : list Event :=
  read_events files now (output_command_script_path t) ++
  read_events files now (output_stdout_path t) ++
  read_events files now (output_stderr_path t).

Definition printout_msg (files : gmap string File) (now : nat) (t : Task) : Msg :=
  MsgFailurePrintout
    {| fi_command_path := output_command_script_path t;
       fi_drm_jobID := drm_jobID t;
       fi_command_script_text := strip (read_text files now (output_command_script_path t));
       fi_stdout_path := output_stdout_path t;
       fi_stdout_text := strip (read_text files now (output_stdout_path t));
       fi_stderr_path := output_stderr_path t;
       fi_stderr_text := strip (read_text files now (output_stderr_path t));
       fi_output_dir := output_dir t |}.

(** The time at which a wait for [path] that starts at [now] ends. *)
Definition wait_end (files : gmap string File) (now timeout : nat) (path : string) : nat :=
  match files !! path with
  | Some f => if decide (visible_from f ≤ now + timeout)%nat
              then (now `max` visible_from f)%nat else (now + timeout)%nat
  | None => (now + timeout)%nat
  end.

Definition wait_found (files : gmap string File) (now timeout : nat) (path : string) : bool :=
  match files !! path with
  | Some f => bool_decide (visible_from f ≤ now + timeout)%nat
  | None => false
  end.

(** Whether an event is a look at a file by [readfile]. *)
Definition is_read (e : Event) : bool :=
  match e with
  | EvExists _ | EvOpen _ => true
  | _ => false
  end.

(** The number of assignments of [failed] in a list of assignments. *)
Definition failures (l : list TaskStatus.t) : nat :=
  length (filter (λ v, v = TaskStatus.failed) l).

(** A Task after a success at time [now]. *)
Definition succeeded (now : nat) (t : Task) : Task :=
  set_finished_on (Some now) (set_successful true (set__status TaskStatus.successful t)).

(** ** Properties of a store *)

(** Every Task of Stage [sid] is successful or does not have to succeed:
    the condition under which a success marks the Stage successful. *)
Definition stage_complete (m : gmap nat Task) (sid : nat) : Prop :=
  ∀ i u, m !! i = Some u → stage u = sid →
         successful u = true ∨ must_succeed u = false.

(** A Task whose status is [successful] or [failed] has finished_on set, and
    a Task whose status is [failed] is not to be run again. *)
Definition finished_inv (max : Z) (t : Task) : Prop :=
  (_status t = TaskStatus.successful ∨ _status t = TaskStatus.failed →
   is_Some (finished_on t)) ∧
  (_status t = TaskStatus.failed →
   must_succeed t = false ∨ (max ≤ attempt t)%Z).

(** What one assignment [task.status = v] on the Task [tid], which was [t]
    in the store [w], leaves: the store [w'] in which the Task is [t']. *)
Record step_facts (tid : nat) (v : TaskStatus.t) (t : Task) (w w' : World) (t' : Task)
    : Prop := {
  sf_tasks : tasks w' = <[tid := t']> (tasks w);
  sf_wf : wf w';
  sf_max : max_attempts w' = max_attempts w;
  sf_fs : fs w' = fs w;
  sf_clock : (clock w ≤ clock w')%nat;
  sf_stage : stage t' = stage t;
  sf_must : must_succeed t' = must_succeed t;
  sf_same : _status t = v → w' = w;
  sf_successful :
    successful t' = true ↔
    successful t = true ∨ (v = TaskStatus.successful ∧ _status t ≠ TaskStatus.successful);
  sf_finished : finished_inv (max_attempts w) t → finished_inv (max_attempts w) t';
  sf_finished_on :
    finished_on t' = finished_on t ∨
    (finished_on t' = Some (clock w') ∧ _status t ≠ v ∧ _status t' = v ∧
     (v = TaskStatus.successful ∨ v = TaskStatus.failed));
  sf_other_stage : ∀ sid, sid ≠ stage t → stages w' !! sid = stages w !! sid;
  sf_stage_dom : ∀ sid, is_Some (stages w' !! sid) ↔ is_Some (stages w !! sid);
  sf_quiet :
    v = TaskStatus.no_attempt ∨ v = TaskStatus.waiting ∨
    (v = TaskStatus.failed ∧ (must_succeed t = false ∨ (attempt t < max_attempts w)%Z)) →
    stages w' = stages w;
  sf_submitted :
    v = TaskStatus.submitted → _status t ≠ v →
    stage_status w' (stage t) = Some StageStatus.running;
  sf_success :
    v = TaskStatus.successful → _status t ≠ v →
    stage_complete (tasks w') (stage t) →
    stage_status w' (stage t) = Some StageStatus.successful;
  sf_success_pending :
    v = TaskStatus.successful →
    ¬ stage_complete (tasks w') (stage t) →
    stages w' = stages w;
  sf_fatal :
    v = TaskStatus.failed → _status t ≠ v →
    must_succeed t = true → (max_attempts w ≤ attempt t)%Z →
    stage_status w' (stage t) = Some StageStatus.failed
}.

(** ** Completions of the Tasks of a Stage *)

(** An assignment other than a submission: a completion ([successful] or
    [failed]), or [no_attempt] or [waiting]. *)
Definition no_submission (e : nat * TaskStatus.t) : Prop :=
  e.2 ≠ TaskStatus.submitted.

(** In the store [w], the assignment [e] is the final failure of a Task of
    Stage [sid] that must succeed. *)
Definition fatal (w : World) (sid : nat) (e : nat * TaskStatus.t) : Prop :=
  e.2 = TaskStatus.failed ∧
  ∃ t, tasks w !! e.1 = Some t ∧ stage t = sid ∧
       _status t ≠ TaskStatus.failed ∧ must_succeed t = true ∧
       (max_attempts w ≤ attempt t)%Z.

(** In the store [w], the assignment [e] is a success of a Task of Stage
    [sid] that the setter dispatches. *)
Definition succeeds (w : World) (sid : nat) (e : nat * TaskStatus.t) : Prop :=
  e.2 = TaskStatus.successful ∧
  ∃ t, tasks w !! e.1 = Some t ∧ stage t = sid ∧
       _status t ≠ TaskStatus.successful.

(** Every Task of Stage [sid] is successful in [w], becomes successful by
    an assignment of [l], or does not have to succeed. *)
Definition complete_after (w : World) (l : list (nat * TaskStatus.t)) (sid : nat) : Prop :=
  ∀ i u, tasks w !! i = Some u → stage u = sid →
    (successful u = true ∨
     ((i, TaskStatus.successful) ∈ l ∧ _status u ≠ TaskStatus.successful)) ∨
    must_succeed u = false.

(** The status [st] of Stage [sid] after the assignments [l], from [w]. *)
Definition outcome (w : World) (l : list (nat * TaskStatus.t)) (sid : nat)
    (st : option StageStatus.t) : Prop :=
  (Exists (fatal w sid) l ∧ st = Some StageStatus.failed) ∨
  (¬ Exists (fatal w sid) l ∧
   Exists (succeeds w sid) l ∧ complete_after w l sid ∧
   st = Some StageStatus.successful) ∨
  (¬ Exists (fatal w sid) l ∧
   ¬ (Exists (succeeds w sid) l ∧ complete_after w l sid) ∧
   st = stage_status w sid).

(** ** Stores to run the module on *)

(** A Task fresh from the database, in Stage [sid]. *)
Definition fresh (sid : nat) : Task :=
  new_task sid "/var/log/cosmos" "/var/out/cosmos" "local".

Definition optional (t : Task) : Task :=
  {| NOOP := NOOP t; stage := stage t; log_dir := log_dir t; output_dir := output_dir t;
     _status := _status t; successful := successful t;
     started_on := started_on t; submitted_on := submitted_on t; finished_on := finished_on t;
     attempt := attempt t; must_succeed := false; drm := drm t; drm_jobID := drm_jobID t;
     children := children t; _cache_profile := _cache_profile t |}.

Definition noop (t : Task) : Task :=
  {| NOOP := true; stage := stage t; log_dir := log_dir t; output_dir := output_dir t;
     _status := _status t; successful := successful t;
     started_on := started_on t; submitted_on := submitted_on t; finished_on := finished_on t;
     attempt := attempt t; must_succeed := must_succeed t; drm := drm t; drm_jobID := drm_jobID t;
     children := children t; _cache_profile := _cache_profile t |}.


(** One Stage with the Tasks [ts], numbered from 0, at time 100, on an
    empty file system. *)
Definition one_stage (max : Z) (ts : list Task) : World :=
  {| tasks := map_seq 0 ts;
     stages := {[ 0%nat := {| name := "align"; status := StageStatus.no_attempt |} ]};
     max_attempts := max; clock := 100; fs := ∅; trace := [] |}.



(** ** The graph of the store *)






(** ** What the assignments of a run keep *)








(** The assignment of [v] to the Task [t] is a failure that is re-queued. *)
Definition requeued (max : Z) (v : TaskStatus.t) (t : Task) : Prop :=
  v = TaskStatus.failed ∧ _status t ≠ TaskStatus.failed ∧
  must_succeed t = true ∧ (attempt t < max)%Z.

(** ** finished_on and the status *)

(** The Task is finished: what [finished] tests. *)
Definition is_finished (t : Task) : Prop :=
  _status t = TaskStatus.successful ∨ _status t = TaskStatus.failed.

(** finished_on is set on a finished Task only: the converse of the first
    part of [finished_inv]. *)
Definition finished_on_earned (t : Task) : Prop :=
  is_Some (finished_on t) → is_finished t.

(** The assignment of [v] takes the finished Task [t] out of [successful]
    and [failed]: it stores [no_attempt], [waiting] or [submitted], or it
    is a failure that is re-queued. *)
Definition reopens (max : Z) (v : TaskStatus.t) (t : Task) : Prop :=
  is_finished t ∧ _status t ≠ v ∧
  (v = TaskStatus.no_attempt ∨ v = TaskStatus.waiting ∨ v = TaskStatus.submitted ∨
   requeued max v t).

#[export] Instance is_finished_dec t : Decision (is_finished t).
Proof. unfold is_finished. apply _. Defined.

#[export] Instance requeued_dec max v t : Decision (requeued max v t).
Proof. unfold requeued. apply _. Defined.

#[export] Instance reopens_dec max v t : Decision (reopens max v t).
Proof. unfold reopens. apply _. Defined.

(** No assignment of the run [l], from [w], re-opens a finished Task. *)
Fixpoint never_reopens (depth : nat) (l : list (nat * TaskStatus.t)) (w : World) : Prop :=
  match l with
  | [] => True
  | (tid, v) :: l' =>
      match tasks w !! tid with
      | Some t =>
          ¬ reopens (max_attempts w) v t ∧
          match set_status depth tid v w with
          | Ok (_, w1) => never_reopens depth l' w1
          | Raise _ => True
          end
      | None => False
      end
  end.

#[export] Instance never_reopens_dec depth l : ∀ w, Decision (never_reopens depth l w).
Proof.
  induction l as [|[tid v] l IH]; intros w; cbn; [apply _|].
  destruct (tasks w !! tid); [|apply _].
  destruct (set_status depth tid v w) as [[[] w1]|]; apply _.
Defined.

(** * Running the monad *)

Lemma bind_run {A B} (m : M A) (f : A → M B) w a w' :
  m w = Ok (a, w') → (m ≫= f) w = f a w'.
Proof. intros H. unfold mbind, M_bind. by rewrite H. Qed.

Lemma mret_run {A} (a : A) (w : World) : (mret a : M A) w = Ok (a, w).
Proof. reflexivity. Qed.

Lemma get_task_run w tid t : tasks w !! tid = Some t → get_task tid w = Ok (t, w).
Proof. intros H. unfold get_task, get_world, mbind, M_bind. by rewrite H. Qed.

Lemma modify_task_run w tid t f :
  tasks w !! tid = Some t →
  modify_task tid f w = Ok (tt, set_tasks (<[tid := f t]> (tasks w)) w).
Proof. intros H. unfold modify_task. by rewrite (bind_run _ _ _ _ _ (get_task_run _ _ _ H)). Qed.

Lemma get_stage_run w sid s : stages w !! sid = Some s → get_stage sid w = Ok (s, w).
Proof. intros H. unfold get_stage, get_world, mbind, M_bind. by rewrite H. Qed.

Lemma set_stage_status_run w sid s v :
  stages w !! sid = Some s →
  set_stage_status sid v w
  = Ok (tt, set_stages (<[sid := {| name := name s; status := v |}]> (stages w)) w).
Proof. intros H. unfold set_stage_status. by rewrite (bind_run _ _ _ _ _ (get_stage_run _ _ _ H)). Qed.

Lemma stage_tasks_run w sid s :
  stages w !! sid = Some s →
  stage_tasks sid w = Ok (filter (λ t, stage t = sid) (map_to_list (tasks w)).*2, w).
Proof. intros H. unfold stage_tasks. by rewrite (bind_run _ _ _ _ _ (get_stage_run _ _ _ H)). Qed.

Lemma execution_run w t s : stages w !! stage t = Some s → execution t w = Ok (tt, w).
Proof. intros H. unfold execution. by rewrite (bind_run _ _ _ _ _ (get_stage_run _ _ _ H)). Qed.

Lemma get_max_attempts_run w t s :
  stages w !! stage t = Some s → get_max_attempts t w = Ok (max_attempts w, w).
Proof. intros H. unfold get_max_attempts. by rewrite (bind_run _ _ _ _ _ (execution_run _ _ _ H)). Qed.

Lemma emit_run w e : emit e w = Ok (tt, set_trace (trace w ++ [e]) w).
Proof. reflexivity. Qed.

Lemma log_run w t s lvl m :
  stages w !! stage t = Some s →
  log t lvl m w = Ok (tt, set_trace (trace w ++ [EvLog lvl m]) w).
Proof. intros H. unfold log. by rewrite (bind_run _ _ _ _ _ (execution_run _ _ _ H)). Qed.

Lemma func_now_run w : func_now w = Ok (clock w, w).
Proof. reflexivity. Qed.

Lemma readfile_run w path :
  readfile path w
  = Ok (read_text (fs w) (clock w) path,
        set_trace (trace w ++ read_events (fs w) (clock w) path) w).
Proof.
  unfold readfile, read_text, read_events, path_exists, emit, get_world, put_world, mbind, M_bind, mret, M_ret.
  cbn. destruct (fs w !! path) as [f|]; cbn; [|done].
  case_bool_decide; cbn; [|done]. by rewrite <- app_assoc.
Qed.

Ltac wsimpl :=
  cbn [tasks stages max_attempts clock fs trace
       set_tasks set_stages set_clock set_trace].

Lemma task_failed_printout_run w t :
  task_failed_printout t w
  = Ok (printout_msg (fs w) (clock w) t,
        set_trace (trace w ++ printout_events (fs w) (clock w) t) w).
Proof.
  unfold task_failed_printout, command_script_text, stdout_text, stderr_text.
  unfold mbind, M_bind, mret, M_ret. repeat (rewrite readfile_run; cbv beta iota).
  unfold printout_msg, printout_events, set_trace. wsimpl. by rewrite <- !app_assoc.
Qed.

Lemma wait_for_file_run w t s path timeout err :
  stages w !! stage t = Some s →
  wait_for_file t path timeout err w
  = Ok (wait_found (fs w) (clock w) timeout path,
        set_clock (wait_end (fs w) (clock w) timeout path)
          (set_trace (trace w ++ [EvWaitForFile path timeout err]) w)).
Proof.
  intros H. unfold wait_for_file.
  rewrite (bind_run _ _ _ _ _ (execution_run _ _ _ H)).
  unfold wait_found, wait_end, emit, get_world, put_world, mbind, M_bind, mret, M_ret. cbn.
  destruct (fs w !! path) as [f|]; [|done].
  destruct (decide _); [by rewrite bool_decide_true | by rewrite bool_decide_false].
Qed.

Ltac lk := wsimpl; rewrite ?lookup_insert_eq; eauto.

Ltac mstep :=
  first
    [ erewrite bind_run by
        first [ eapply get_task_run; lk
              | eapply modify_task_run; lk
              | eapply set_stage_status_run; lk
              | eapply stage_tasks_run; lk
              | eapply get_max_attempts_run; lk
              | eapply log_run; lk
              | eapply wait_for_file_run; lk
              | apply func_now_run
              | apply emit_run
              | apply task_failed_printout_run
              | apply mret_run ]
    | erewrite modify_task_run by lk
    | erewrite set_stage_status_run by lk
    | erewrite log_run by lk ];
  wsimpl.

Ltac bd :=
  repeat first [ rewrite bool_decide_true by done
               | rewrite bool_decide_false by done ].

Ltac wdone :=
  unfold set_tasks, set_stages, set_clock, set_trace; wsimpl;
  rewrite ?insert_insert_eq, <- ?app_assoc; try reflexivity.

Lemma when_run {B} (b : bool) (m : M unit) (k : unit → M B) w0 w1 :
  (if b then m else mret tt) w0 = Ok (tt, w1) →
  (when b m ≫= k) w0 = k tt w1.
Proof. intros H. unfold when. by rewrite (bind_run _ _ _ _ _ H). Qed.

(** * The setter, branch by branch *)

Lemma set_status_unfold d tid value :
  set_status (S d) tid value
  = (self ← get_task tid;
     if decide (_status self ≠ value) then
       modify_task tid (set__status value);;
       signal_send (set_status d) tid
     else mret tt).
Proof. reflexivity. Qed.

(** Assigning the status the Task already has. *)
Lemma set_status_same d tid t w :
  tasks w !! tid = Some t →
  set_status (S d) tid (_status t) w = Ok (tt, w).
Proof.
  intros Ht. rewrite set_status_unfold. mstep. by destruct (decide _).
Qed.

Ltac enter_setter :=
  rewrite set_status_unfold; mstep;
  destruct (decide _) as [_|]; [|done];
  mstep; unfold signal_send; do 2 mstep; unfold task_status_changed; mstep;
  cbn [_status set__status NOOP stage must_succeed attempt drm drm_jobID].

Lemma set_status_no_attempt d tid t w :
  tasks w !! tid = Some t → _status t ≠ TaskStatus.no_attempt →
  set_status (S d) tid TaskStatus.no_attempt w
  = Ok (tt, {| tasks := <[tid := set__status TaskStatus.no_attempt t]> (tasks w);
               stages := stages w; max_attempts := max_attempts w;
               clock := clock w; fs := fs w;
               trace := trace w ++ [EvSignal tid TaskStatus.no_attempt] |}).
Proof.
  intros Ht Hne. enter_setter. reflexivity.
Qed.

Lemma set_status_waiting d tid t w :
  tasks w !! tid = Some t → _status t ≠ TaskStatus.waiting →
  set_status (S d) tid TaskStatus.waiting w
  = Ok (tt, {| tasks := <[tid := set_started_on (Some (clock w))
                                   (set__status TaskStatus.waiting t)]> (tasks w);
               stages := stages w; max_attempts := max_attempts w;
               clock := clock w; fs := fs w;
               trace := trace w ++ [EvSignal tid TaskStatus.waiting] |}).
Proof.
  intros Ht Hne. enter_setter. unfold when; bd.
  do 2 mstep. mstep. wdone.
Qed.

Lemma set_status_submitted d tid t s w :
  tasks w !! tid = Some t → stages w !! stage t = Some s →
  _status t ≠ TaskStatus.submitted →
  set_status (S d) tid TaskStatus.submitted w
  = Ok (tt, {| tasks := <[tid := set_submitted_on (Some (clock w))
                                   (set__status TaskStatus.submitted t)]> (tasks w);
               stages := <[stage t := {| name := name s;
                                         status := StageStatus.running |}]> (stages w);
               max_attempts := max_attempts w; clock := clock w; fs := fs w;
               trace := trace w ++ EvSignal tid TaskStatus.submitted ::
                 (if NOOP t then []
                  else [EvLog INFO (MsgSubmitted tid TaskStatus.submitted
                                      (drm t) (drm_jobID t))]) |}).
Proof.
  intros Ht Hs Hne. enter_setter. unfold when; bd. mstep.
  destruct (NOOP t); cbn [negb]; repeat mstep; wdone.
Qed.

Lemma set_status_successful d tid t s w :
  tasks w !! tid = Some t → stages w !! stage t = Some s →
  _status t ≠ TaskStatus.successful →
  let t' := set_finished_on (Some (clock w))
              (set_successful true (set__status TaskStatus.successful t)) in
  let tasks' := <[tid := t']> (tasks w) in
  set_status (S d) tid TaskStatus.successful w
  = Ok (tt, {| tasks := tasks';
               stages :=
                 if all_successful_or_optional
                      (filter (λ u, stage u = stage t) (map_to_list tasks').*2)
                 then <[stage t := {| name := name s;
                                      status := StageStatus.successful |}]> (stages w)
                 else stages w;
               max_attempts := max_attempts w; clock := clock w; fs := fs w;
               trace := trace w ++ EvSignal tid TaskStatus.successful ::
                 (if NOOP t then []
                  else [EvLog INFO (MsgStatus tid TaskStatus.successful)]) |}).
Proof.
  intros Ht Hs Hne t' tasks'. subst t' tasks'. enter_setter. unfold when at 1; bd.
  destruct (NOOP t); cbn [negb]; unfold when at 1;
    do 5 mstep; wsimpl; rewrite !insert_insert_eq;
    unfold when; destruct (all_successful_or_optional _); try mstep; wdone.
Qed.

Lemma set_status_failed_tolerated d tid t s w :
  tasks w !! tid = Some t → stages w !! stage t = Some s →
  _status t ≠ TaskStatus.failed → must_succeed t = false →
  let t0 := set__status TaskStatus.failed t in
  set_status (S d) tid TaskStatus.failed w
  = Ok (tt, {| tasks := <[tid := set_finished_on (Some (clock w)) t0]> (tasks w);
               stages := stages w; max_attempts := max_attempts w;
               clock := clock w; fs := fs w;
               trace := trace w ++
                 [EvSignal tid TaskStatus.failed;
                  EvLog WARN (MsgToleratedFailure tid)] ++
                 printout_events (fs w) (clock w) t0 ++
                 [EvLog WARN (printout_msg (fs w) (clock w) t0)] |}).
Proof.
  intros Ht Hs Hne Hms t0. subst t0. enter_setter. unfold when; bd. mstep.
  rewrite Hms. cbn [negb]. repeat mstep. wdone.
Qed.

Lemma set_status_failed_retry d tid t s w :
  tasks w !! tid = Some t → stages w !! stage t = Some s →
  _status t ≠ TaskStatus.failed → must_succeed t = true →
  (attempt t < max_attempts w)%Z →
  let t0 := set__status TaskStatus.failed t in
  set_status (S (S d)) tid TaskStatus.failed w
  = Ok (tt, {| tasks := <[tid := set__status TaskStatus.no_attempt
                                   (set_attempt (attempt t + 1)%Z t0)]> (tasks w);
               stages := stages w; max_attempts := max_attempts w;
               clock := clock w; fs := fs w;
               trace := trace w ++
                 [EvSignal tid TaskStatus.failed;
                  EvLog WARN (MsgAttemptFailed tid (attempt t) (max_attempts w))] ++
                 printout_events (fs w) (clock w) t0 ++
                 [EvLog WARN (printout_msg (fs w) (clock w) t0);
                  EvSignal tid TaskStatus.no_attempt] |}).
Proof.
  intros Ht Hs Hne Hms Hlt t0. subst t0. enter_setter. unfold when; bd. mstep.
  rewrite Hms. cbn [negb]. do 2 mstep. wsimpl. bd. do 3 mstep.
  erewrite set_status_no_attempt by (lk || done). wdone.
Qed.

Lemma set_status_failed_terminal d tid t s w :
  tasks w !! tid = Some t → stages w !! stage t = Some s →
  _status t ≠ TaskStatus.failed → must_succeed t = true →
  ¬ (attempt t < max_attempts w)%Z →
  let t0 := set__status TaskStatus.failed t in
  let stderr := output_stderr_path t0 in
  let now := wait_end (fs w) (clock w) 60 stderr in
  set_status (S d) tid TaskStatus.failed w
  = Ok (tt, {| tasks := <[tid := set_finished_on (Some now) t0]> (tasks w);
               stages := <[stage t := {| name := name s;
                                         status := StageStatus.failed |}]> (stages w);
               max_attempts := max_attempts w; clock := now; fs := fs w;
               trace := trace w ++
                 [EvSignal tid TaskStatus.failed;
                  EvLog WARN (MsgAttemptFailed tid (attempt t) (max_attempts w));
                  EvWaitForFile stderr 60 None] ++
                 printout_events (fs w) now t0 ++
                 [EvLog WARN (printout_msg (fs w) now t0);
                  EvLog ERROR (MsgTooManyFailures tid)] |}).
Proof.
  intros Ht Hs Hne Hms Hlt t0 stderr now. subst t0 stderr now.
  enter_setter. unfold when; bd. mstep.
  rewrite Hms. cbn [negb]. do 2 mstep. wsimpl. bd. repeat mstep. wdone.
Qed.

(** The setter returns for every status, in one of eight ways. *)
Lemma set_status_cases d tid v t s w :
  tasks w !! tid = Some t → stages w !! stage t = Some s →
  ∃ w', set_status (S (S d)) tid v w = Ok (tt, w') ∧
    ( (_status t = v ∧ w' = w)
    ∨ (_status t ≠ v ∧
       match v with
       | TaskStatus.no_attempt =>
           w' = {| tasks := <[tid := set__status v t]> (tasks w);
                   stages := stages w; max_attempts := max_attempts w;
                   clock := clock w; fs := fs w;
                   trace := trace w ++ [EvSignal tid v] |}
       | TaskStatus.waiting =>
           w' = {| tasks := <[tid := set_started_on (Some (clock w)) (set__status v t)]> (tasks w);
                   stages := stages w; max_attempts := max_attempts w;
                   clock := clock w; fs := fs w;
                   trace := trace w ++ [EvSignal tid v] |}
       | TaskStatus.submitted =>
           ∃ evs,
           w' = {| tasks := <[tid := set_submitted_on (Some (clock w)) (set__status v t)]> (tasks w);
                   stages := <[stage t := {| name := name s; status := StageStatus.running |}]> (stages w);
                   max_attempts := max_attempts w;
                   clock := clock w; fs := fs w;
                   trace := trace w ++ EvSignal tid v :: evs |}
       | TaskStatus.successful =>
           ∃ evs,
           let tasks' := <[tid := set_finished_on (Some (clock w))
                                    (set_successful true (set__status v t))]> (tasks w) in
           w' = {| tasks := tasks';
                   stages := if all_successful_or_optional
                                  (filter (λ u, stage u = stage t) (map_to_list tasks').*2)
                             then <[stage t := {| name := name s; status := StageStatus.successful |}]> (stages w)
                             else stages w;
                   max_attempts := max_attempts w;
                   clock := clock w; fs := fs w;
                   trace := trace w ++ EvSignal tid v :: evs |}
       | TaskStatus.failed =>
           ∃ evs,
           if negb (must_succeed t) then
             w' = {| tasks := <[tid := set_finished_on (Some (clock w)) (set__status v t)]> (tasks w);
                     stages := stages w; max_attempts := max_attempts w;
                     clock := clock w; fs := fs w;
                     trace := trace w ++ EvSignal tid v :: evs |}
           else if bool_decide (attempt t < max_attempts w)%Z then
             w' = {| tasks := <[tid := set__status TaskStatus.no_attempt
                                   (set_attempt (attempt t + 1)%Z (set__status v t))]> (tasks w);
                     stages := stages w; max_attempts := max_attempts w;
                     clock := clock w; fs := fs w;
                     trace := trace w ++ EvSignal tid v :: evs |}
           else
             let now := wait_end (fs w) (clock w) 60 (output_stderr_path t) in
             w' = {| tasks := <[tid := set_finished_on (Some now) (set__status v t)]> (tasks w);
                     stages := <[stage t := {| name := name s; status := StageStatus.failed |}]> (stages w);
                     max_attempts := max_attempts w;
                     clock := now; fs := fs w;
                     trace := trace w ++ EvSignal tid v :: evs |}
       end)).
Proof.
  intros Ht Hs. destruct (decide (_status t = v)) as [<-|Hne].
  { eexists. split; [by apply set_status_same|]. by left. }
  destruct v.
  - eexists. split; [by apply set_status_no_attempt|]. by right.
  - eexists. split; [by apply set_status_waiting|]. by right.
  - eexists. split; [by eapply set_status_submitted|]. right. split; [done|]. by eexists.
  - eexists. split; [by eapply set_status_successful|]. right. split; [done|]. by eexists.
  - destruct (must_succeed t) eqn:Hms; cbn [negb].
    + case_bool_decide as Hlt.
      * eexists. split; [by eapply set_status_failed_retry|]. right. split; [done|].
        by eexists.
      * eexists. split; [by eapply set_status_failed_terminal|]. right. split; [done|].
        by eexists.
    + eexists. split; [by eapply set_status_failed_tolerated|]. right. split; [done|].
      by eexists.
Qed.

(** * The claims about single transitions *)

Lemma read_events_reads files now path :
  Forall (λ e, is_read e = true) (read_events files now path).
Proof.
  unfold read_events. destruct (files !! path); [case_bool_decide|]; repeat constructor.
Qed.

Lemma printout_events_reads files now t :
  Forall (λ e, is_read e = true) (printout_events files now t).
Proof.
  unfold printout_events. rewrite !Forall_app. auto using read_events_reads.
Qed.

Lemma wait_end_bounds files now timeout path :
  (now ≤ wait_end files now timeout path ≤ now + timeout)%nat.
Proof.
  unfold wait_end. destruct (files !! path); [case_decide|]; lia.
Qed.

(** C8. A failure of a Task with must_succeed = false sets finished_on to
    the current time and is logged; the Stages, the attempt count and the
    stored status [failed] are left as they are, and so is every other
    Task. *)
Theorem tolerated_failure_is_not_escalated d tid t s w :
  tasks w !! tid = Some t → stages w !! stage t = Some s →
  _status t ≠ TaskStatus.failed → must_succeed t = false →
  ∃ w' t',
    set_status (S d) tid TaskStatus.failed w = Ok (tt, w') ∧
    tasks w' !! tid = Some t' ∧
    t' = set_finished_on (Some (clock w)) (set__status TaskStatus.failed t) ∧
    finished_on t' = Some (clock w) ∧
    _status t' = TaskStatus.failed ∧ attempt t' = attempt t ∧
    stages w' = stages w ∧
    (∀ j, j ≠ tid → tasks w' !! j = tasks w !! j) ∧
    clock w' = clock w ∧
    EvLog WARN (MsgToleratedFailure tid) ∈ trace w'.
Proof.
  intros Ht Hs Hne Hms.
  eexists _, _. split; [by eapply set_status_failed_tolerated|]. cbn.
  split; [by rewrite lookup_insert_eq|].
  repeat split; try done.
  - intros j Hj. by rewrite lookup_insert_ne.
  - rewrite elem_of_app, !elem_of_cons. auto.
Qed.

Lemma tolerated_failure_witness :
  ∃ w' t',
    set_status 1 0 TaskStatus.failed (one_stage 3 [optional (fresh 0)]) = Ok (tt, w') ∧
    tasks w' !! 0%nat = Some t' ∧
    t' = set_finished_on (Some 100%nat) (set__status TaskStatus.failed (optional (fresh 0))) ∧
    finished_on t' = Some 100%nat ∧
    _status t' = TaskStatus.failed ∧ attempt t' = 1%Z ∧
    stages w' = stages (one_stage 3 [optional (fresh 0)]) ∧
    (∀ j, j ≠ 0%nat → tasks w' !! j = tasks (one_stage 3 [optional (fresh 0)]) !! j) ∧
    clock w' = 100%nat ∧
    EvLog WARN (MsgToleratedFailure 0) ∈ trace w'.
Proof.
  apply (tolerated_failure_is_not_escalated 0 0 (optional (fresh 0))
           {| name := "align"; status := StageStatus.no_attempt |}
           (one_stage 3 [optional (fresh 0)])); by vm_compute.
Defined.

(** C7. When a Task that must succeed fails with its attempts used up
    (attempt >= max_attempts), the receiver first waits for the stderr file
    of the attempt, for at most 60 time units, and goes on whatever the
    file system holds; it then sets finished_on to the time after the wait
    and sets the status of the owning Stage to [failed]. *)
Theorem exhausted_failure_fails_the_stage d tid t s w :
  tasks w !! tid = Some t → stages w !! stage t = Some s →
  _status t ≠ TaskStatus.failed → must_succeed t = true →
  (max_attempts w ≤ attempt t)%Z →
  ∃ w' t' evs,
    set_status (S d) tid TaskStatus.failed w = Ok (tt, w') ∧
    trace w' = trace w ++
      [EvSignal tid TaskStatus.failed;
       EvLog WARN (MsgAttemptFailed tid (attempt t) (max_attempts w));
       EvWaitForFile (output_stderr_path t) 60 None] ++ evs ∧
    Forall (λ e, ∀ p n b, e ≠ EvWaitForFile p n b) evs ∧
    (clock w ≤ clock w' ≤ clock w + 60)%nat ∧
    clock w' = wait_end (fs w) (clock w) 60 (output_stderr_path t) ∧
    tasks w' !! tid = Some t' ∧
    t' = set_finished_on (Some (clock w')) (set__status TaskStatus.failed t) ∧
    finished_on t' = Some (clock w') ∧
    stage_status w' (stage t) = Some StageStatus.failed.
Proof.
  intros Ht Hs Hne Hms Hmax.
  eexists _, _, _. split; [eapply set_status_failed_terminal; eauto; lia|]. cbn.
  split; [reflexivity|].
  split.
  { rewrite Forall_app. split.
    - eapply Forall_impl; [apply printout_events_reads|].
      intros [] He; done.
    - repeat constructor; done. }
  split; [apply wait_end_bounds|].
  split; [done|].
  split; [by rewrite lookup_insert_eq|].
  repeat split. unfold stage_status. cbn. by rewrite lookup_insert_eq.
Qed.

Lemma exhausted_failure_witness :
  ∃ w' t' evs,
    set_status 1 0 TaskStatus.failed (one_stage 1 [fresh 0]) = Ok (tt, w') ∧
    trace w' = trace (one_stage 1 [fresh 0]) ++
      [EvSignal 0 TaskStatus.failed;
       EvLog WARN (MsgAttemptFailed 0 (attempt (fresh 0)) (max_attempts (one_stage 1 [fresh 0])));
       EvWaitForFile (output_stderr_path (fresh 0)) 60 None] ++ evs ∧
    Forall (λ e, ∀ p n b, e ≠ EvWaitForFile p n b) evs ∧
    (clock (one_stage 1 [fresh 0]) ≤ clock w' ≤ clock (one_stage 1 [fresh 0]) + 60)%nat ∧
    clock w' = wait_end (fs (one_stage 1 [fresh 0])) (clock (one_stage 1 [fresh 0])) 60
                 (output_stderr_path (fresh 0)) ∧
    tasks w' !! 0%nat = Some t' ∧
    t' = set_finished_on (Some (clock w')) (set__status TaskStatus.failed (fresh 0)) ∧
    finished_on t' = Some (clock w') ∧
    stage_status w' (stage (fresh 0)) = Some StageStatus.failed.
Proof.
  apply (exhausted_failure_fails_the_stage 0 0 (fresh 0)
           {| name := "align"; status := StageStatus.no_attempt |}
           (one_stage 1 [fresh 0])); by vm_compute.
Defined.

Lemma reads_not_signal evs : Forall (λ e, is_read e = true) evs → ∀ tid v, EvSignal tid v ∉ evs.
Proof.
  intros H tid v Hin. rewrite Forall_forall in H. by apply H in Hin.
Qed.

(** C10. For a status [v] other than the stored one the setter stores
    [v] and sends the signal, whatever the two statuses are: the call is
    the receiver run on the store that holds [v], after one send.  It
    returns, and among the events it adds the send for [v] occurs once, as
    the first.  There is no hypothesis on the status the Task leaves, so a
    successful or failed Task is moved like any other. *)
Theorem setter_has_no_guard d tid t s v w :
  tasks w !! tid = Some t → stages w !! stage t = Some s →
  _status t ≠ v →
  let stored := {| tasks := <[tid := set__status v t]> (tasks w);
                   stages := stages w; max_attempts := max_attempts w;
                   clock := clock w; fs := fs w;
                   trace := trace w ++ [EvSignal tid v] |} in
  set_status (S (S d)) tid v w = task_status_changed (set_status (S d)) tid stored ∧
  ∃ w' evs,
    set_status (S (S d)) tid v w = Ok (tt, w') ∧
    trace w' = trace w ++ EvSignal tid v :: evs ∧
    EvSignal tid v ∉ evs.
Proof.
  intros Ht Hs Hne stored. split.
  { rewrite set_status_unfold. mstep. destruct (decide _) as [_|]; [|done].
    mstep. unfold signal_send. do 2 mstep. reflexivity. }
  destruct v.
  - eexists _, []. split; [by apply set_status_no_attempt|]. split; [done|]. by intros ?%elem_of_nil.
  - eexists _, []. split; [by apply set_status_waiting|]. split; [done|]. by intros ?%elem_of_nil.
  - eexists _, _. split; [by eapply set_status_submitted|]. split; [done|].
    destruct (NOOP t); [by intros ?%elem_of_nil|by intros ?%list_elem_of_singleton].
  - eexists _, _. split; [by eapply set_status_successful|]. split; [done|].
    destruct (NOOP t); [by intros ?%elem_of_nil|by intros ?%list_elem_of_singleton].
  - destruct (must_succeed t) eqn:Hms.
    + destruct (decide (attempt t < max_attempts w)%Z) as [Hlt|Hlt].
      * eexists _, _. split; [by eapply set_status_failed_retry|]. split; [done|].
        cbn. rewrite elem_of_cons, elem_of_app, !elem_of_cons, elem_of_nil.
        intros [?|[?%reads_not_signal|[?|[?|?]]]]; try done.
        apply printout_events_reads.
      * eexists _, _. split; [by eapply set_status_failed_terminal|]. split; [done|].
        cbn. rewrite !elem_of_cons, elem_of_app, !elem_of_cons, elem_of_nil.
        intros [?|[?|[?%reads_not_signal|[?|[?|?]]]]]; try done.
        apply printout_events_reads.
    + eexists _, _. split; [by eapply set_status_failed_tolerated|]. split; [done|].
      cbn. rewrite elem_of_cons, elem_of_app, !elem_of_cons, elem_of_nil.
      intros [?|[?%reads_not_signal|[?|?]]]; try done.
      apply printout_events_reads.
Qed.

Lemma setter_has_no_guard_witness :
  set_status 2 0 TaskStatus.waiting (one_stage 3 [succeeded 90 (fresh 0)])
  = task_status_changed (set_status 1) 0
      {| tasks := <[0%nat := set__status TaskStatus.waiting (succeeded 90 (fresh 0))]>
                    (tasks (one_stage 3 [succeeded 90 (fresh 0)]));
         stages := stages (one_stage 3 [succeeded 90 (fresh 0)]);
         max_attempts := 3; clock := 100; fs := ∅;
         trace := [EvSignal 0 TaskStatus.waiting] |} ∧
  ∃ w' evs,
    set_status 2 0 TaskStatus.waiting (one_stage 3 [succeeded 90 (fresh 0)]) = Ok (tt, w') ∧
    trace w' = trace (one_stage 3 [succeeded 90 (fresh 0)])
               ++ EvSignal 0 TaskStatus.waiting :: evs ∧
    EvSignal 0 TaskStatus.waiting ∉ evs.
Proof.
  apply (setter_has_no_guard 0 0 (succeeded 90 (fresh 0))
           {| name := "align"; status := StageStatus.no_attempt |}
           TaskStatus.waiting (one_stage 3 [succeeded 90 (fresh 0)])); by vm_compute.
Defined.

(** C6, amended.  Assigning the status the Task has is a no-op: the
    setter returns the store as it is (no status change, no send, no
    timestamp, no Stage update, no log entry).  After a transition to [v],
    a second assignment of [v] leaves the whole store as it is, unless the
    transition was a failure that was re-queued (must_succeed, attempts
    left): there the stored status is [no_attempt], not [failed]. *)
Theorem assigning_the_current_status_is_a_noop d tid t s w :
  tasks w !! tid = Some t → stages w !! stage t = Some s →
  set_status (S d) tid (_status t) w = Ok (tt, w) ∧
  ∀ v, ¬ (v = TaskStatus.failed ∧ _status t ≠ TaskStatus.failed ∧
          must_succeed t = true ∧ (attempt t < max_attempts w)%Z) →
    ∃ w', set_status (S (S d)) tid v w = Ok (tt, w') ∧
          set_status (S (S d)) tid v w' = Ok (tt, w').
Proof.
  intros Ht Hs. split; [by apply set_status_same|].
  intros v Hnot.
  assert (∀ w' t', tasks w' !! tid = Some t' → _status t' = v →
                   set_status (S (S d)) tid v w' = Ok (tt, w')) as Hsame.
  { intros w' t' Ht' <-. by apply set_status_same. }
  destruct (set_status_cases d tid v t s w Ht Hs) as (w' & Hrun & Hcases).
  exists w'. split; [done|].
  destruct Hcases as [[Heq ->]|[Hne Hcases]]; [by eapply Hsame|].
  destruct v.
  - subst w'. eapply Hsame; [apply lookup_insert_eq|done].
  - subst w'. eapply Hsame; [apply lookup_insert_eq|done].
  - destruct Hcases as [evs ->]. eapply Hsame; [apply lookup_insert_eq|done].
  - destruct Hcases as [evs ->]. eapply Hsame; [apply lookup_insert_eq|done].
  - destruct Hcases as [evs Hcases].
    destruct (must_succeed t) eqn:Hms; cbn [negb] in Hcases.
    + case_bool_decide as Hlt.
      * exfalso. apply Hnot. done.
      * subst w'. eapply Hsame; [apply lookup_insert_eq|done].
    + subst w'. eapply Hsame; [apply lookup_insert_eq|done].
Qed.

Lemma assigning_the_current_status_witness :
  set_status 1 0 TaskStatus.no_attempt (one_stage 3 [fresh 0])
  = Ok (tt, one_stage 3 [fresh 0]) ∧
  ∃ w', set_status 2 0 TaskStatus.waiting (one_stage 3 [fresh 0]) = Ok (tt, w') ∧
        set_status 2 0 TaskStatus.waiting w' = Ok (tt, w').
Proof.
  destruct (assigning_the_current_status_is_a_noop 0 0 (fresh 0)
              {| name := "align"; status := StageStatus.no_attempt |}
              (one_stage 3 [fresh 0])) as [Hsame Htwice]; [by vm_compute..|].
  split; [exact Hsame|]. apply Htwice. by intros [? _].
Defined.

(** C6 as stated fails: a failure with attempts left stores [no_attempt],
    so the same assignment made again is dispatched again. *)
Lemma second_failure_is_dispatched_again :
  ∃ w1 w2 t1 t2,
    set_status 2 0 TaskStatus.failed (one_stage 3 [fresh 0]) = Ok (tt, w1) ∧
    set_status 2 0 TaskStatus.failed w1 = Ok (tt, w2) ∧
    tasks w1 !! 0%nat = Some t1 ∧ tasks w2 !! 0%nat = Some t2 ∧
    _status t1 = TaskStatus.no_attempt ∧
    attempt t1 = 2%Z ∧ attempt t2 = 3%Z ∧
    length (trace w1) = 7%nat ∧ length (trace w2) = 14%nat ∧
    w2 ≠ w1.
Proof.
  eexists _, _, _, _.
  split; [vm_compute; reflexivity|].
  split; [vm_compute; reflexivity|].
  split; [vm_compute; reflexivity|].
  split; [vm_compute; reflexivity|].
  repeat split; try (vm_compute; reflexivity).
  intros H. apply (f_equal (λ w, length (trace w))) in H. vm_compute in H. discriminate.
Qed.

(** * One assignment, in general *)

Lemma all_successful_or_optional_spec (m : gmap nat Task) sid :
  all_successful_or_optional (filter (λ u, stage u = sid) (map_to_list m).*2) = true
  ↔ stage_complete m sid.
Proof.
  unfold all_successful_or_optional, stage_complete.
  rewrite forallb_forall. setoid_rewrite <- list_elem_of_In. split.
  - intros H i u Hi Hs.
    assert (u ∈ filter (λ u, stage u = sid) (map_to_list m).*2) as Hin.
    { apply list_elem_of_filter. split; [done|].
      apply list_elem_of_fmap. exists (i, u). split; [done|].
      by apply elem_of_map_to_list. }
    apply H in Hin. destruct (successful u), (must_succeed u); auto.
  - intros H u [Hs Hin]%list_elem_of_filter.
    apply list_elem_of_fmap in Hin as ([i u'] & -> & Hin).
    apply elem_of_map_to_list in Hin.
    cbn. destruct (H i u' Hin Hs) as [-> | ->]; [done|]. by rewrite orb_true_r.
Qed.

Lemma wf_update tid t t' w tasks' stages' max' clock' fs' trace' :
  wf w → tasks w !! tid = Some t → stage t' = stage t →
  tasks' = <[tid := t']> (tasks w) →
  (∀ sid, is_Some (stages w !! sid) → is_Some (stages' !! sid)) →
  wf {| tasks := tasks'; stages := stages'; max_attempts := max';
        clock := clock'; fs := fs'; trace := trace' |}.
Proof.
  intros Hwf Ht Hst -> Hdom i u. cbn.
  rewrite lookup_insert. case_decide as Hi.
  - intros [= <-]. apply Hdom. rewrite Hst. by apply (Hwf tid).
  - intros Hu. apply Hdom. by apply (Hwf i).
Qed.

Lemma is_Some_insert_stage (m : gmap nat Stage) k x sid :
  is_Some (<[k := x]> m !! sid) ↔ sid = k ∨ is_Some (m !! sid).
Proof.
  rewrite lookup_insert. case_decide as Hk.
  - subst. split; [auto|by eexists].
  - split; [auto|]. intros [?|?]; [congruence|done].
Qed.

Ltac sf_auto :=
  cbn [tasks stages max_attempts clock fs trace];
  first
    [ done
    | by rewrite insert_id
    | by left
    | by (right; cbn; auto)
    | apply wait_end_bounds
    | by (eapply wf_update; [eassumption | eassumption | | reflexivity | ];
          [reflexivity | intros sid; rewrite ?is_Some_insert_stage; auto])
    | by (cbn; split; [tauto|]; intros [?|[? ?]]; congruence)
    | by (cbn; split; [auto|]; intros _; right)
    | by (unfold finished_inv; cbn; intros [? ?];
          split; [first [by eexists | by (intros _; eexists) | intros [?|?]; done]
                 |first [done | solve [auto] | by (intros _; right; lia)]])
    | by (intros sid Hsid; rewrite lookup_insert_ne)
    | by (intros sid; rewrite is_Some_insert_stage; split; [|auto];
          intros [->|?]; [by eexists|done])
    | by (intros; unfold stage_status; cbn; rewrite lookup_insert_eq)
    | by (intros; subst; congruence)
    | by (intros; lia)
    | by (intros [?|[?|[? [?|?]]]]; first [done | congruence | lia]) ].

Lemma set_status_step d tid v t w :
  wf w → tasks w !! tid = Some t →
  ∃ w' t', set_status (S (S d)) tid v w = Ok (tt, w') ∧ step_facts tid v t w w' t'.
Proof.
  intros Hwf Ht. destruct (Hwf tid t Ht) as [s Hs].
  destruct (set_status_cases d tid v t s w Ht Hs) as (w' & Hrun & Hcases).
  destruct Hcases as [[Heq ->]|[Hne Hcases]].
  { exists w, t. split; [done|]. split; try solve [sf_auto]. }
  destruct v.
  - subst w'. eexists _, _. split; [done|]. split; try solve [sf_auto].
  - subst w'. eexists _, _. split; [done|]. split; try solve [sf_auto].
  - destruct Hcases as [evs ->]. eexists _, _. split; [done|]. split; try solve [sf_auto].
  - destruct Hcases as [evs Hcases]. cbn zeta in Hcases.
    destruct (all_successful_or_optional _) eqn:Hall in Hcases; subst w';
      eexists _, _; (split; [done|]); split; try solve [sf_auto];
      cbn [tasks stages max_attempts clock fs trace].
    + intros _ Hc. by apply all_successful_or_optional_spec in Hall.
    + intros _ _ Hc. apply all_successful_or_optional_spec in Hc.
      cbn [stage set_finished_on set_successful set__status] in Hc. congruence.
  - destruct Hcases as [evs Hcases].
    destruct (must_succeed t) eqn:Hms; cbn [negb] in Hcases.
    + case_bool_decide as Hlt.
      * subst w'. eexists _, _. split; [done|]. split; try solve [sf_auto].
      * subst w'. eexists _, _. split; [done|]. split; try solve [sf_auto].
    + subst w'. eexists _, _. split; [done|]. split; try solve [sf_auto].
Qed.

(** C5, amended.  What one assignment does to the status of the Stages:
    a Stage other than the Task's keeps its status; so does the Task's
    Stage when the status assigned is the stored one, [no_attempt] or
    [waiting], or a failure that is tolerated or re-queued.  A dispatched
    assignment of [submitted] sets the Stage to [running] whatever its
    status was, [failed] and [successful] included, and every time; a
    dispatched success sets it to [successful] exactly when the Stage is
    complete; the final failure of a Task that must succeed sets it to
    [failed]. *)
Theorem stage_status_after_an_assignment d tid v t w :
  wf w → tasks w !! tid = Some t →
  ∃ w',
    set_status (S (S d)) tid v w = Ok (tt, w') ∧
    (∀ sid, sid ≠ stage t → stage_status w' sid = stage_status w sid) ∧
    (_status t = v ∨ v = TaskStatus.no_attempt ∨ v = TaskStatus.waiting ∨
     (v = TaskStatus.failed ∧
      (must_succeed t = false ∨ (attempt t < max_attempts w)%Z)) →
     ∀ sid, stage_status w' sid = stage_status w sid) ∧
    (v = TaskStatus.submitted → _status t ≠ TaskStatus.submitted →
     stage_status w' (stage t) = Some StageStatus.running) ∧
    (v = TaskStatus.successful → _status t ≠ TaskStatus.successful →
     (stage_complete (tasks w') (stage t) →
      stage_status w' (stage t) = Some StageStatus.successful) ∧
     (¬ stage_complete (tasks w') (stage t) →
      stage_status w' (stage t) = stage_status w (stage t))) ∧
    (v = TaskStatus.failed → _status t ≠ TaskStatus.failed →
     must_succeed t = true → (max_attempts w ≤ attempt t)%Z →
     stage_status w' (stage t) = Some StageStatus.failed).
Proof.
  intros Hwf Ht.
  destruct (set_status_step d tid v t w Hwf Ht) as (w' & t' & Hrun & Hsf).
  exists w'. split; [done|]. split; [|split; [|split; [|split]]].
  - intros sid Hsid. unfold stage_status. by rewrite (sf_other_stage _ _ _ _ _ _ Hsf).
  - intros [Heq|Hq] sid.
    + by rewrite (sf_same _ _ _ _ _ _ Hsf Heq).
    + unfold stage_status. by rewrite (sf_quiet _ _ _ _ _ _ Hsf Hq).
  - intros -> Hne. by apply (sf_submitted _ _ _ _ _ _ Hsf).
  - intros -> Hne. split.
    + by apply (sf_success _ _ _ _ _ _ Hsf).
    + intros Hc. unfold stage_status.
      by rewrite (sf_success_pending _ _ _ _ _ _ Hsf eq_refl Hc).
  - intros -> Hne Hms Hmax. by apply (sf_fatal _ _ _ _ _ _ Hsf).
Qed.


Lemma stage_status_witness :
  ∃ w',
    set_status 2 0 TaskStatus.submitted (one_stage 3 [fresh 0; fresh 0]) = Ok (tt, w') ∧
    stage_status w' 0 = Some StageStatus.running ∧
    ∀ sid, sid ≠ 0%nat →
      stage_status w' sid = stage_status (one_stage 3 [fresh 0; fresh 0]) sid.
Proof.
  destruct (stage_status_after_an_assignment 0 0 TaskStatus.submitted (fresh 0)
              (one_stage 3 [fresh 0; fresh 0]))
    as (w' & Hrun & Hother & _ & Hsubmitted & _).
  - apply (bool_decide_unpack _). by vm_compute.
  - by vm_compute.
  - exists w'. split; [exact Hrun|]. split; [by apply Hsubmitted|exact Hother].
Defined.

(** C5 as stated fails: a Stage that is [failed] goes back to [running]
    when another of its Tasks is submitted. *)
Lemma submission_reopens_a_failed_stage :
  ∃ w1 w2,
    assign_all 2 [(0%nat, TaskStatus.submitted); (0%nat, TaskStatus.failed)]
      (one_stage 1 [fresh 0; fresh 0]) = Ok (tt, w1) ∧
    stage_status w1 0 = Some StageStatus.failed ∧
    set_status 2 1 TaskStatus.submitted w1 = Ok (tt, w2) ∧
    stage_status w2 0 = Some StageStatus.running.
Proof.
  eexists _, _.
  split; [vm_compute; reflexivity|].
  split; [vm_compute; reflexivity|].
  split; vm_compute; reflexivity.
Qed.

(** * Runs of assignments *)

Lemma assign_all_cons d tid v l w w1 :
  set_status d tid v w = Ok (tt, w1) →
  assign_all d ((tid, v) :: l) w = assign_all d l w1.
Proof. intros H. cbn [assign_all]. by rewrite (bind_run _ _ _ _ _ H). Qed.

Lemma attempt_counts_failures d tid l : ∀ w t,
  tasks w !! tid = Some t → is_Some (stages w !! stage t) →
  must_succeed t = true → _status t ≠ TaskStatus.failed →
  (attempt t + Z.of_nat (failures l) ≤ max_attempts w)%Z →
  ∃ w' t',
    assign_all (S (S d)) (pair tid <$> l) w = Ok (tt, w') ∧
    tasks w' !! tid = Some t' ∧
    attempt t' = (attempt t + Z.of_nat (failures l))%Z ∧
    _status t' ≠ TaskStatus.failed.
Proof.
  induction l as [|v l IH]; intros w t Ht [s Hs] Hms Hst Hle.
  { exists w, t. cbn. unfold failures. cbn. split; [done|]. split; [done|]. split; [lia|done]. }
  destruct (set_status_cases d tid v t s w Ht Hs) as (w1 & Hrun & Hcases).
  rewrite fmap_cons, (assign_all_cons _ _ _ _ _ _ Hrun).
  assert (∀ t1, tasks w1 !! tid = Some t1 → is_Some (stages w1 !! stage t1) →
            must_succeed t1 = true → _status t1 ≠ TaskStatus.failed →
            max_attempts w1 = max_attempts w →
            (attempt t1 + Z.of_nat (failures l) = attempt t + Z.of_nat (failures (v :: l)))%Z →
            ∃ w' t', assign_all (S (S d)) (pair tid <$> l) w1 = Ok (tt, w') ∧
              tasks w' !! tid = Some t' ∧
              attempt t' = (attempt t + Z.of_nat (failures (v :: l)))%Z ∧
              _status t' ≠ TaskStatus.failed) as Hnext.
  { intros t1 Ht1 Hs1 Hms1 Hst1 Hmax Hcount.
    destruct (IH w1 t1 Ht1 Hs1 Hms1 Hst1) as (w' & t' & ? & ? & ? & ?); [lia|].
    exists w', t'. repeat split; try done. lia. }
  assert (v ≠ TaskStatus.failed → failures (v :: l) = failures l) as Hskip.
  { intros Hv. unfold failures. by rewrite filter_cons_False. }
  destruct Hcases as [[Heq ->]|[Hne Hcases]].
  { apply (Hnext t); try done. rewrite Hskip; [done|congruence]. }
  destruct v.
  - subst w1. eapply Hnext; [apply lookup_insert_eq|by cbn; eexists|done..|by rewrite Hskip].
  - subst w1. eapply Hnext; [apply lookup_insert_eq|by cbn; eexists|done..|by rewrite Hskip].
  - destruct Hcases as [evs ->].
    eapply Hnext; [apply lookup_insert_eq|cbn; rewrite lookup_insert_eq; by eexists
                  |done..|by rewrite Hskip].
  - destruct Hcases as [evs ->].
    eapply Hnext; [apply lookup_insert_eq| |done..|by rewrite Hskip].
    cbn. destruct (all_successful_or_optional _); rewrite ?lookup_insert_eq; by eexists.
  - destruct Hcases as [evs Hcases]. rewrite Hms in Hcases. cbn [negb] in Hcases.
    assert (failures (TaskStatus.failed :: l) = S (failures l)) as Hcount.
    { unfold failures. by rewrite filter_cons_True. }
    rewrite bool_decide_true in Hcases by lia. subst w1.
    eapply Hnext; [apply lookup_insert_eq|by cbn; eexists|done..|].
    rewrite Hcount. cbn [attempt set__status set_attempt]. lia.
Qed.

(** C1. When a Task that must succeed fails with attempts left, the
    receiver adds one to [attempt] and assigns [no_attempt] through the
    setter: the signal is sent once more, for [no_attempt], and nothing
    follows that send (the failure branch is not entered again);
    finished_on and the Stages are as before.  From attempt = 1, after a
    run of assignments to the Task with k < max_attempts failures, attempt
    is k + 1. *)
Theorem failure_with_attempts_left_requeues d tid t s w :
  tasks w !! tid = Some t → stages w !! stage t = Some s →
  must_succeed t = true → _status t ≠ TaskStatus.failed →
  ((attempt t < max_attempts w)%Z →
   ∃ w' t',
     set_status (S (S d)) tid TaskStatus.failed w = Ok (tt, w') ∧
     tasks w' = <[tid := t']> (tasks w) ∧
     t' = set__status TaskStatus.no_attempt (set_attempt (attempt t + 1)%Z t) ∧
     attempt t' = (attempt t + 1)%Z ∧
     _status t' = TaskStatus.no_attempt ∧
     finished_on t' = finished_on t ∧
     stages w' = stages w ∧
     trace w' = trace w ++
       [EvSignal tid TaskStatus.failed;
        EvLog WARN (MsgAttemptFailed tid (attempt t) (max_attempts w))] ++
       printout_events (fs w) (clock w) t ++
       [EvLog WARN (printout_msg (fs w) (clock w) t);
        EvSignal tid TaskStatus.no_attempt]) ∧
  (attempt t = 1%Z →
   ∀ (k : nat) (l : list TaskStatus.t),
     failures l = k → (Z.of_nat k < max_attempts w)%Z →
     ∃ w' t',
       assign_all (S (S d)) (pair tid <$> l) w = Ok (tt, w') ∧
       tasks w' !! tid = Some t' ∧
       attempt t' = (Z.of_nat k + 1)%Z).
Proof.
  intros Ht Hs Hms Hst. split.
  - intros Hlt. eexists _, _.
    split; [by eapply set_status_failed_retry|]. cbn. done.
  - intros H1 k l Hk Hlt.
    destruct (attempt_counts_failures d tid l w t) as (w' & t' & ? & ? & ? & ?); try done.
    { lia. }
    exists w', t'. repeat split; try done. lia.
Qed.

Lemma failure_with_attempts_left_witness :
  (∃ w' t',
     set_status 2 0 TaskStatus.failed (one_stage 3 [fresh 0]) = Ok (tt, w') ∧
     tasks w' = <[0%nat := t']> (tasks (one_stage 3 [fresh 0])) ∧
     t' = set__status TaskStatus.no_attempt (set_attempt 2%Z (fresh 0)) ∧
     attempt t' = 2%Z ∧
     _status t' = TaskStatus.no_attempt ∧
     finished_on t' = None ∧
     stages w' = stages (one_stage 3 [fresh 0]) ∧
     trace w' = [] ++
       [EvSignal 0 TaskStatus.failed; EvLog WARN (MsgAttemptFailed 0 1 3)] ++
       printout_events ∅ 100 (fresh 0) ++
       [EvLog WARN (printout_msg ∅ 100 (fresh 0));
        EvSignal 0 TaskStatus.no_attempt]) ∧
  (∃ w' t',
     assign_all 2 (pair 0%nat <$>
       [TaskStatus.waiting; TaskStatus.submitted; TaskStatus.failed;
        TaskStatus.waiting; TaskStatus.submitted; TaskStatus.failed])
       (one_stage 3 [fresh 0]) = Ok (tt, w') ∧
     tasks w' !! 0%nat = Some t' ∧
     attempt t' = 3%Z).
Proof.
  destruct (failure_with_attempts_left_requeues 0 0 (fresh 0)
              {| name := "align"; status := StageStatus.no_attempt |}
              (one_stage 3 [fresh 0])) as [Hone Hmany]; [by vm_compute..|].
  split.
  - apply Hone. by vm_compute.
  - apply (Hmany eq_refl 2%nat); by vm_compute.
Defined.

(** * The [profile] property *)

(** C9. Reading the profile of a NOOP Task returns the empty dict and
    leaves the store as it is: no wait, no file is looked at, nothing is
    logged.  For a Task that is not NOOP and has no cached profile, when the
    report does not become visible within 60 time units, the property waits
    those 60 units once, logs one warning and returns the empty dict: it
    does not raise. *)
Theorem profile_of_noop_or_missing_report json_load tid t w :
  tasks w !! tid = Some t →
  (NOOP t = true → profile json_load tid w = Ok (∅, w)) ∧
  (NOOP t = false → _cache_profile t = None →
   is_Some (stages w !! stage t) →
   (∀ f, fs w !! output_profile_path t = Some f → (clock w + 60 < visible_from f)%nat) →
   ∃ w',
     profile json_load tid w = Ok (∅, w') ∧
     trace w' = trace w ++
       [EvWaitForFile (output_profile_path t) 60 (Some false);
        EvLog WARN (MsgNoProfile (output_profile_path t))] ∧
     (clock w' = clock w + 60)%nat ∧
     tasks w' = tasks w ∧ stages w' = stages w).
Proof.
  intros Ht. split.
  - intros HN. unfold profile. mstep. by rewrite HN.
  - intros HN Hc [s Hs] Hfs. unfold profile. mstep. rewrite HN, Hc. mstep.
    assert (wait_found (fs w) (clock w) 60 (output_profile_path t) = false) as ->.
    { unfold wait_found. destruct (fs w !! output_profile_path t) as [f|] eqn:Hf; [|done].
      apply bool_decide_eq_false. specialize (Hfs f eq_refl). lia. }
    mstep. eexists. split; [reflexivity|]. cbn.
    split; [by rewrite <- app_assoc|].
    split; [|done].
    unfold wait_end. destruct (fs w !! output_profile_path t) as [f|] eqn:Hf; [|done].
    rewrite decide_False; [done|]. specialize (Hfs f eq_refl). lia.
Qed.

Lemma profile_witness :
  (profile (λ _, None) 0 (one_stage 3 [noop (fresh 0)]) = Ok (∅, one_stage 3 [noop (fresh 0)])) ∧
  (∃ w',
     profile (λ _, None) 0 (one_stage 3 [fresh 0]) = Ok (∅, w') ∧
     trace w' = [] ++
       [EvWaitForFile (output_profile_path (fresh 0)) 60 (Some false);
        EvLog WARN (MsgNoProfile (output_profile_path (fresh 0)))] ∧
     clock w' = (100 + 60)%nat ∧
     tasks w' = tasks (one_stage 3 [fresh 0]) ∧ stages w' = stages (one_stage 3 [fresh 0])).
Proof.
  split.
  - apply (profile_of_noop_or_missing_report (λ _, None) 0 (noop (fresh 0))
             (one_stage 3 [noop (fresh 0)])); by vm_compute.
  - apply (profile_of_noop_or_missing_report (λ _, None) 0 (fresh 0)
             (one_stage 3 [fresh 0])); try by vm_compute.
    by eexists.
Defined.

Lemma assign_all_preserves (P : World → Prop) d :
  (∀ w tid v t, P w → tasks w !! tid = Some t →
     ∃ w', set_status (S (S d)) tid v w = Ok (tt, w') ∧ P w' ∧
           (∀ j, is_Some (tasks w !! j) → is_Some (tasks w' !! j))) →
  ∀ l w, P w → Forall (λ e, is_Some (tasks w !! e.1)) l →
    ∃ w', assign_all (S (S d)) l w = Ok (tt, w') ∧ P w'.
Proof.
  intros Hstep l. induction l as [|[tid v] l IH]; intros w HP Hl.
  { by exists w. }
  apply Forall_cons in Hl as [[t Ht] Hl]. cbn in Ht.
  destruct (Hstep w tid v t HP Ht) as (w1 & Hrun & HP1 & Hdom).
  rewrite (assign_all_cons _ _ _ _ _ _ Hrun). apply IH; [done|].
  eapply Forall_impl; [exact Hl|]. intros e. apply Hdom.
Qed.

(** Whether the Task is finished after an assignment, and whether its
    finished_on is set. *)
Lemma set_status_finishes d tid v t w :
  wf w → tasks w !! tid = Some t →
  ∃ w' t', set_status (S (S d)) tid v w = Ok (tt, w') ∧
    step_facts tid v t w w' t' ∧
    (is_finished t' ↔
     (v = TaskStatus.successful ∨ v = TaskStatus.failed) ∧
     ¬ requeued (max_attempts w) v t) ∧
    (is_Some (finished_on t') ↔
     is_Some (finished_on t) ∨ (_status t ≠ v ∧ is_finished t')).
Proof.
  intros Hwf Ht. destruct (Hwf tid t Ht) as [s Hs].
  destruct (set_status_step d tid v t w Hwf Ht) as (w1 & t1 & Hrun1 & Hsf).
  exists w1, t1. do 2 (split; [done|]).
  assert (tasks w1 !! tid = Some t1) as Ht1.
  { rewrite (sf_tasks _ _ _ _ _ _ Hsf). apply lookup_insert_eq. }
  clear Hsf.
  destruct (set_status_cases d tid v t s w Ht Hs) as (w' & Hrun & Hcases).
  rewrite Hrun in Hrun1. injection Hrun1 as <-.
  destruct Hcases as [[Heq ->]|[Hne Hcases]].
  { rewrite Ht in Ht1. injection Ht1 as <-.
    subst v. unfold is_finished, requeued. split; [|tauto]. intuition congruence. }
  destruct v.
  1,2: subst w'.
  3,4: destruct Hcases as [evs Hcases]; cbn zeta in Hcases; subst w'.
  5: { destruct Hcases as [evs Hcases].
       destruct (must_succeed t) eqn:Hms; cbn [negb] in Hcases;
         [case_bool_decide as Hlt; cbn zeta in Hcases|]; subst w';
         cbn [tasks] in Ht1; rewrite lookup_insert_eq in Ht1; injection Ht1 as <-;
         unfold is_finished, requeued; cbn; rewrite ?is_Some_alt;
         intuition (try congruence; try lia; try done). }
  all: cbn [tasks] in Ht1; rewrite lookup_insert_eq in Ht1; injection Ht1 as <-;
       unfold is_finished, requeued; cbn; intuition (try congruence; try done).
Qed.

(** C3, amended.  In every store reached by a run of assignments, from a
    store whose Tasks satisfy it, a Task whose status is [successful] or
    [failed] has finished_on set, and a Task whose status is [failed] has
    must_succeed = false or attempt >= max_attempts.  An assignment of
    [no_attempt], [waiting] or [submitted] changes the finished_on of no
    Task.  The converse, finished_on set only on a Task whose status is
    [successful] or [failed], holds as well in every store reached by a run
    that re-opens no finished Task (no assignment that takes a Task out of
    [successful] and [failed]: one of [no_attempt], [waiting] or
    [submitted], or a failure that is re-queued), from a store whose Tasks
    satisfy it; every assignment that does re-open a finished Task leaves
    it unfinished with finished_on set, since nothing clears finished_on. *)
Theorem finished_tasks_have_finished_on d w :
  wf w →
  (∀ i t, tasks w !! i = Some t → finished_inv (max_attempts w) t) →
  (∀ l, Forall (λ e, is_Some (tasks w !! e.1)) l →
     ∃ w', assign_all (S (S d)) l w = Ok (tt, w') ∧
       ∀ i t', tasks w' !! i = Some t' → finished_inv (max_attempts w') t') ∧
  (∀ tid t v, tasks w !! tid = Some t →
     v = TaskStatus.no_attempt ∨ v = TaskStatus.waiting ∨ v = TaskStatus.submitted →
     ∃ w', set_status (S (S d)) tid v w = Ok (tt, w') ∧
       ∀ i, finished_on <$> tasks w' !! i = finished_on <$> tasks w !! i) ∧
  (∀ l, (∀ i t, tasks w !! i = Some t → finished_on_earned t) →
     never_reopens (S (S d)) l w →
     ∃ w', assign_all (S (S d)) l w = Ok (tt, w') ∧
       ∀ i t', tasks w' !! i = Some t' →
         finished_inv (max_attempts w') t' ∧ finished_on_earned t') ∧
  (∀ tid t v, tasks w !! tid = Some t → reopens (max_attempts w) v t →
     ∃ w' t', set_status (S (S d)) tid v w = Ok (tt, w') ∧
       tasks w' !! tid = Some t' ∧
       is_Some (finished_on t') ∧ ¬ is_finished t').
Proof.
  intros Hwf Hinv. split; [|split; [|split]].
  - intros l Hl.
    destruct (assign_all_preserves
      (λ w, wf w ∧ ∀ i t, tasks w !! i = Some t → finished_inv (max_attempts w) t) d)
      with (l := l) (w := w) as (w' & Hrun & _ & Hinv'); try done.
    + clear. intros w tid v t [Hwf Hinv] Ht.
      destruct (set_status_step d tid v t w Hwf Ht) as (w' & t' & Hrun & Hsf).
      exists w'. split; [done|]. split; [split|].
      * by apply (sf_wf _ _ _ _ _ _ Hsf).
      * intros i u. rewrite (sf_tasks _ _ _ _ _ _ Hsf), (sf_max _ _ _ _ _ _ Hsf).
        rewrite lookup_insert. case_decide.
        -- intros [= <-]. apply (sf_finished _ _ _ _ _ _ Hsf). by apply (Hinv tid).
        -- apply Hinv.
      * intros j. rewrite (sf_tasks _ _ _ _ _ _ Hsf), lookup_insert.
        case_decide; [by eexists|done].
    + by exists w'.
  - intros tid t v Ht Hv.
    destruct (set_status_step d tid v t w Hwf Ht) as (w' & t' & Hrun & Hsf).
    exists w'. split; [done|]. intros i.
    rewrite (sf_tasks _ _ _ _ _ _ Hsf), lookup_insert. case_decide as Hi; [|done].
    subst i. rewrite Ht. cbn. f_equal.
    destruct (sf_finished_on _ _ _ _ _ _ Hsf) as [?|(_ & _ & _ & [->| ->])]; [done|..];
      destruct Hv as [?|[?|?]]; done.
  - intros l. revert w Hwf Hinv.
    induction l as [|[tid v] l IH]; intros w Hwf Hinv Hearned Hnever.
    { exists w. split; [done|]. intros i t' Ht'. split; [by apply (Hinv i)|by apply (Hearned i)]. }
    cbn [never_reopens] in Hnever.
    destruct (tasks w !! tid) as [t|] eqn:Ht; [|done]. destruct Hnever as [Hno Hnever].
    destruct (set_status_finishes d tid v t w Hwf Ht) as (w1 & t1 & Hrun & Hsf & Hfin & Hon).
    rewrite Hrun in Hnever. rewrite (assign_all_cons _ _ _ _ _ _ Hrun).
    apply IH; [by apply (sf_wf _ _ _ _ _ _ Hsf)| | |done].
    + intros i u. rewrite (sf_tasks _ _ _ _ _ _ Hsf), (sf_max _ _ _ _ _ _ Hsf).
      rewrite lookup_insert. case_decide.
      * intros [= <-]. apply (sf_finished _ _ _ _ _ _ Hsf). by apply (Hinv tid).
      * apply Hinv.
    + intros i u. rewrite (sf_tasks _ _ _ _ _ _ Hsf), lookup_insert. case_decide; [|apply Hearned].
      intros [= <-]. intros Hset. apply Hon in Hset as [Hset|[_ ?]]; [|done].
      apply (Hearned tid t Ht) in Hset. apply Hfin.
      destruct (decide (_status t = v)) as [<-|Hne].
      { split; [done|]. intros (-> & ? & _). by destruct Hset. }
      unfold reopens in Hno. destruct v; try (exfalso; apply Hno; by auto 6).
      * split; [by left|]. by intros [? _].
      * split; [by right|]. intros Hre. apply Hno. by auto 6.
  - intros tid t v Ht (Hwas & Hne & Hv).
    destruct (set_status_finishes d tid v t w Hwf Ht) as (w1 & t1 & Hrun & Hsf & Hfin & Hon).
    exists w1, t1. split; [done|]. split.
    { rewrite (sf_tasks _ _ _ _ _ _ Hsf). apply lookup_insert_eq. }
    split.
    + apply Hon. left. apply (Hinv tid t Ht). exact Hwas.
    + intros [Hf Hnre]%Hfin.
      destruct Hv as [->|[->|[->|?]]]; try (by destruct Hf); done.
Qed.

Lemma finished_tasks_witness :
  (∃ w', assign_all 2 [(0%nat, TaskStatus.successful); (1%nat, TaskStatus.failed);
                       (0%nat, TaskStatus.waiting)]
           (one_stage 3 [fresh 0; optional (fresh 0)]) = Ok (tt, w') ∧
     ∀ i t', tasks w' !! i = Some t' → finished_inv (max_attempts w') t') ∧
  (∃ w', set_status 2 0 TaskStatus.waiting (one_stage 3 [fresh 0; optional (fresh 0)])
         = Ok (tt, w') ∧
     ∀ i, finished_on <$> tasks w' !! i
          = finished_on <$> tasks (one_stage 3 [fresh 0; optional (fresh 0)]) !! i) ∧
  (∃ w', assign_all 2 [(0%nat, TaskStatus.submitted); (0%nat, TaskStatus.failed);
                       (0%nat, TaskStatus.successful); (1%nat, TaskStatus.failed);
                       (1%nat, TaskStatus.failed)]
           (one_stage 3 [fresh 0; optional (fresh 0)]) = Ok (tt, w') ∧
     ∀ i t', tasks w' !! i = Some t' →
       finished_inv (max_attempts w') t' ∧ finished_on_earned t') ∧
  (∃ w' t', set_status 2 0 TaskStatus.waiting (one_stage 3 [succeeded 90 (fresh 0)])
            = Ok (tt, w') ∧
     tasks w' !! 0%nat = Some t' ∧
     is_Some (finished_on t') ∧ ¬ is_finished t').
Proof.
  destruct (finished_tasks_have_finished_on 0 (one_stage 3 [fresh 0; optional (fresh 0)]))
    as (Hruns & Hquiet & Hearned & _).
  - apply (bool_decide_unpack _). by vm_compute.
  - intros i t Ht. cbn [one_stage tasks] in Ht. rewrite lookup_map_seq_0 in Ht.
    destruct i as [|[|i]]; cbn in Ht; try done;
      injection Ht as <-; (split; [intros [?|?]; done|done]).
  - destruct (finished_tasks_have_finished_on 0 (one_stage 3 [succeeded 90 (fresh 0)]))
      as (_ & _ & _ & Hreopen).
    + apply (bool_decide_unpack _). by vm_compute.
    + intros i t Ht. cbn [one_stage tasks] in Ht. rewrite lookup_map_seq_0 in Ht.
      destruct i as [|i]; cbn in Ht; try done.
      injection Ht as <-. split; [by eexists|done].
    + split; [|split; [|split]].
      * apply Hruns. repeat constructor; by eexists.
      * apply (Hquiet 0%nat (fresh 0)); [by vm_compute|auto].
      * apply Hearned.
        -- intros i t Ht. cbn [one_stage tasks] in Ht. rewrite lookup_map_seq_0 in Ht.
           destruct i as [|[|i]]; cbn in Ht; try done;
             injection Ht as <-; by intros [? ?].
        -- apply (bool_decide_unpack _). by vm_compute.
      * apply (Hreopen 0%nat (succeeded 90 (fresh 0))); [by vm_compute|].
        apply (bool_decide_unpack _). by vm_compute.
Defined.

(** C3 as stated fails: finished_on stays set when a successful Task is
    assigned another status. *)
Lemma finished_on_outlives_the_status :
  ∃ w' t',
    assign_all 2 [(0%nat, TaskStatus.successful); (0%nat, TaskStatus.waiting)]
      (one_stage 3 [fresh 0]) = Ok (tt, w') ∧
    tasks w' !! 0%nat = Some t' ∧
    _status t' = TaskStatus.waiting ∧
    finished_on t' = Some 100%nat.
Proof.
  eexists _, _.
  split; [vm_compute; reflexivity|].
  split; vm_compute; done.
Qed.

(** * The order of completions *)

Lemma stage_complete_dec_bool (m : gmap nat Task) sid :
  stage_complete m sid ∨ ¬ stage_complete m sid.
Proof.
  destruct (all_successful_or_optional
              (filter (λ u, stage u = sid) (map_to_list m).*2)) eqn:H.
  - left. by apply all_successful_or_optional_spec.
  - right. intros Hc%all_successful_or_optional_spec. congruence.
Qed.

Lemma fatal_here w sid tid v t :
  tasks w !! tid = Some t →
  fatal w sid (tid, v) ↔
  v = TaskStatus.failed ∧ stage t = sid ∧ _status t ≠ TaskStatus.failed ∧
  must_succeed t = true ∧ (max_attempts w ≤ attempt t)%Z.
Proof.
  intros Ht. unfold fatal. cbn. split.
  - intros (? & u & Hu & ?). rewrite Ht in Hu. injection Hu as <-. tauto.
  - intros (? & ?). split; [done|]. by exists t.
Qed.

Lemma succeeds_here w sid tid v t :
  tasks w !! tid = Some t →
  succeeds w sid (tid, v) ↔
  v = TaskStatus.successful ∧ stage t = sid ∧ _status t ≠ TaskStatus.successful.
Proof.
  intros Ht. unfold succeeds. cbn. split.
  - intros (? & u & Hu & ?). rewrite Ht in Hu. injection Hu as <-. tauto.
  - intros (? & ?). split; [done|]. by exists t.
Qed.

(** Assignments to other Tasks see the same Task before and after a step. *)
Lemma fatal_frame w w' sid tid t' (l : list (nat * TaskStatus.t)) :
  tasks w' = <[tid := t']> (tasks w) → max_attempts w' = max_attempts w →
  tid ∉ l.*1 →
  Exists (fatal w' sid) l ↔ Exists (fatal w sid) l.
Proof.
  intros Htasks Hmax Hnin.
  assert (∀ e, e ∈ l → fatal w' sid e ↔ fatal w sid e) as Hsame.
  { intros [j v] Hin.
    assert (j ≠ tid) as Hj.
    { intros ->. apply Hnin. apply list_elem_of_fmap. by exists (tid, v). }
    unfold fatal. cbn. rewrite Htasks, Hmax. by rewrite lookup_insert_ne. }
  rewrite !Exists_exists. split; intros (e & Hin & He); exists e; (split; [done|]);
    by apply (Hsame e Hin).
Qed.

Lemma succeeds_frame w w' sid tid t' (l : list (nat * TaskStatus.t)) :
  tasks w' = <[tid := t']> (tasks w) →
  tid ∉ l.*1 →
  Exists (succeeds w' sid) l ↔ Exists (succeeds w sid) l.
Proof.
  intros Htasks Hnin.
  assert (∀ e, e ∈ l → succeeds w' sid e ↔ succeeds w sid e) as Hsame.
  { intros [j v] Hin.
    assert (j ≠ tid) as Hj.
    { intros ->. apply Hnin. apply list_elem_of_fmap. by exists (tid, v). }
    unfold succeeds. cbn. rewrite Htasks. by rewrite lookup_insert_ne. }
  rewrite !Exists_exists. split; intros (e & Hin & He); exists e; (split; [done|]);
    by apply (Hsame e Hin).
Qed.

Lemma complete_after_frame w w' sid tid v t t' (l : list (nat * TaskStatus.t)) :
  tasks w !! tid = Some t →
  tasks w' = <[tid := t']> (tasks w) →
  stage t' = stage t → must_succeed t' = must_succeed t →
  (successful t' = true ↔
   successful t = true ∨ (v = TaskStatus.successful ∧ _status t ≠ TaskStatus.successful)) →
  tid ∉ l.*1 →
  complete_after w' l sid ↔ complete_after w ((tid, v) :: l) sid.
Proof.
  intros Ht Htasks Hst Hms Hsucc Hnin.
  assert (∀ x, (tid, x) ∉ l) as Hnin'.
  { intros x Hx. apply Hnin. apply list_elem_of_fmap. by exists (tid, x). }
  unfold complete_after. rewrite Htasks. split.
  - intros H i u Hu Hs. destruct (decide (i = tid)) as [->|Hi].
    + rewrite Ht in Hu. injection Hu as <-.
      destruct (H tid t') as [[Hs'|[Hin _]]|Hm].
      * by rewrite lookup_insert_eq.
      * congruence.
      * apply Hsucc in Hs' as [?|[-> ?]]; [by left; left|].
        left. right. split; [apply list_elem_of_here|done].
      * by apply Hnin' in Hin.
      * right. congruence.
    + destruct (H i u) as [[?|[Hin ?]]|?]; [by rewrite lookup_insert_ne|done|..].
      * by left; left.
      * left. right. split; [by apply list_elem_of_further|done].
      * by right.
  - intros H i u. rewrite lookup_insert. case_decide as Hi.
    + intros [= <-] Hs. subst i.
      destruct (H tid t Ht) as [[?|[Hin ?]]|?]; [congruence|..].
      * left. left. apply Hsucc. by left.
      * left. left. apply Hsucc. right.
        apply elem_of_cons in Hin as [[= <-]|Hin]; [done|by apply Hnin' in Hin].
      * right. congruence.
    + intros Hu Hs. destruct (H i u Hu Hs) as [[?|[Hin ?]]|?].
      * by left; left.
      * left. right. split; [|done].
        apply elem_of_cons in Hin as [[= ? ?]|Hin]; [congruence|done].
      * by right.
Qed.

(** When no later assignment is a dispatched success, the Stage is complete
    at the end only if it is complete now. *)
Lemma complete_after_now w l sid :
  ¬ Exists (succeeds w sid) l → complete_after w l sid → stage_complete (tasks w) sid.
Proof.
  intros Hno Hc i u Hu Hs. destruct (Hc i u Hu Hs) as [[?|[Hin ?]]|?]; [by left| |by right].
  exfalso. apply Hno. apply Exists_exists. exists (i, TaskStatus.successful).
  split; [done|]. split; [done|]. by exists u.
Qed.

Lemma complete_now_after w l sid :
  stage_complete (tasks w) sid → complete_after w l sid.
Proof.
  intros Hc i u Hu Hs. destruct (Hc i u Hu Hs); [by left; left|by right].
Qed.

(** The status of every Stage after a run without a submission, of
    assignments to distinct Tasks that have not succeeded before. *)
Lemma stage_outcome d l : ∀ w,
  wf w → Forall no_submission l → NoDup l.*1 →
  (∀ e, e ∈ l → ∃ u, tasks w !! e.1 = Some u ∧ successful u = false) →
  ∃ w', assign_all (S (S d)) l w = Ok (tt, w') ∧
        ∀ sid, outcome w l sid (stage_status w' sid).
Proof.
  induction l as [|[tid v] l IH]; intros w Hwf Hcomp Hnd Hfresh.
  { exists w. split; [done|]. intros sid. right. right.
    split; [by intros ?%Exists_nil|]. split; [|done]. by intros [?%Exists_nil _]. }
  apply Forall_cons in Hcomp as [Hv Hcomp]. unfold no_submission in Hv. cbn in Hv.
  rewrite fmap_cons in Hnd. apply NoDup_cons in Hnd as [Hnin Hnd]. cbn in Hnin.
  destruct (Hfresh (tid, v)) as (t & Ht & Hnot); [apply list_elem_of_here|]. cbn in Ht.
  destruct (set_status_step d tid v t w Hwf Ht) as (w1 & t' & Hrun & Hsf).
  rewrite (assign_all_cons _ _ _ _ _ _ Hrun).
  destruct (IH w1) as (w' & Hrun' & Hout); [by apply (sf_wf _ _ _ _ _ _ Hsf)|done..| |].
  { intros [j x] Hin. destruct (Hfresh (j, x)) as (u & Hu & ?); [by apply list_elem_of_further|].
    exists u. split; [|done]. cbn in *. rewrite (sf_tasks _ _ _ _ _ _ Hsf).
    rewrite lookup_insert_ne; [done|]. intros ->. apply Hnin.
    apply list_elem_of_fmap. by exists (j, x). }
  exists w'. split; [done|]. intros sid.
  pose proof (fatal_frame w w1 sid tid t' l (sf_tasks _ _ _ _ _ _ Hsf)
                (sf_max _ _ _ _ _ _ Hsf) Hnin) as HF.
  pose proof (succeeds_frame w w1 sid tid t' l (sf_tasks _ _ _ _ _ _ Hsf) Hnin) as HS.
  pose proof (complete_after_frame w w1 sid tid v t t' l Ht (sf_tasks _ _ _ _ _ _ Hsf)
                (sf_stage _ _ _ _ _ _ Hsf) (sf_must _ _ _ _ _ _ Hsf)
                (sf_successful _ _ _ _ _ _ Hsf) Hnin) as HC.
  pose proof (fatal_here w sid tid v t Ht) as Hfh.
  pose proof (succeeds_here w sid tid v t Ht) as Hsh.
  assert (tasks w1 !! tid = Some t') as Ht1.
  { rewrite (sf_tasks _ _ _ _ _ _ Hsf). apply lookup_insert_eq. }
  (* the Task that fails for good keeps the Stage incomplete *)
  assert (fatal w sid (tid, v) → ¬ complete_after w1 l sid) as Hstuck.
  { intros (-> & <- & _ & Hms & _)%Hfh Hc1.
    destruct (Hc1 tid t' Ht1 (sf_stage _ _ _ _ _ _ Hsf)) as [[Hs'|[Hin _]]|Hm].
    - apply (sf_successful _ _ _ _ _ _ Hsf) in Hs' as [?|[? _]]; congruence.
    - apply Hnin. apply list_elem_of_fmap. by exists (tid, TaskStatus.successful).
    - rewrite (sf_must _ _ _ _ _ _ Hsf) in Hm. congruence. }
  destruct (Hout sid) as [[HF1 ->]|[(HnF1 & HS1 & HC1 & ->)|(HnF1 & HnSC1 & ->)]].
  - (* a later final failure *)
    left. split; [|done]. apply Exists_cons. right. by apply HF.
  - (* a later success completes the Stage *)
    right. left. split; [|split; [|split; [|done]]].
    + intros [Hf|Hf]%Exists_cons; [by apply Hstuck in Hf|]. by apply HnF1, HF.
    + apply Exists_cons. right. by apply HS.
    + by apply HC.
  - (* the status is the one this assignment leaves *)
    destruct (decide (v = TaskStatus.failed ∧ stage t = sid ∧
                      _status t ≠ TaskStatus.failed ∧ must_succeed t = true ∧
                      (max_attempts w ≤ attempt t)%Z)) as [Hfat|Hnfat].
    { left. split; [apply Exists_cons; left; by apply Hfh|].
      destruct Hfat as (-> & <- & ? & ? & ?). by apply (sf_fatal _ _ _ _ _ _ Hsf). }
    assert (¬ Exists (fatal w sid) ((tid, v) :: l)) as HnF.
    { intros [Hf|Hf]%Exists_cons; [by apply Hfh in Hf|]. by apply HnF1, HF. }
    destruct (decide (v = TaskStatus.successful ∧ stage t = sid ∧
                      _status t ≠ TaskStatus.successful)) as [Hsuc|Hnsuc].
    + destruct Hsuc as (-> & <- & Hne).
      destruct (stage_complete_dec_bool (tasks w1) (stage t)) as [Hc|Hc].
      * right. left. split; [done|]. split; [|split].
        -- apply Exists_cons. left. by apply Hsh.
        -- apply HC. by apply complete_now_after.
        -- by apply (sf_success _ _ _ _ _ _ Hsf).
      * right. right. split; [done|]. split.
        -- intros [_ Hca]. apply HC in Hca. apply Hc.
           apply (complete_after_now w1 l); [|done]. tauto.
        -- unfold stage_status. by rewrite (sf_success_pending _ _ _ _ _ _ Hsf eq_refl Hc).
    + right. right. split; [done|]. split.
      * intros [[Hs|Hs]%Exists_cons Hca]; [by apply Hsh in Hs|].
        apply HnSC1. split; [by apply HS|by apply HC].
      * (* this assignment leaves the Stage as it is *)
        destruct (decide (sid = stage t)) as [->|Hsid];
          [|unfold stage_status; by rewrite (sf_other_stage _ _ _ _ _ _ Hsf)].
        destruct (decide (_status t = v)) as [Heq|Hne];
          [by rewrite (sf_same _ _ _ _ _ _ Hsf Heq)|].
        destruct v; [| |done|exfalso; by apply Hnsuc|].
        { unfold stage_status. rewrite (sf_quiet _ _ _ _ _ _ Hsf); [done|]. by left. }
        { unfold stage_status. rewrite (sf_quiet _ _ _ _ _ _ Hsf); [done|]. by right; left. }
        unfold stage_status. rewrite (sf_quiet _ _ _ _ _ _ Hsf); [done|].
        right. right. split; [done|].
        destruct (must_succeed t) eqn:Hms; [|by left]. right.
        destruct (decide (attempt t < max_attempts w)%Z); [done|].
        exfalso. apply Hnfat. repeat split; try done. lia.
Qed.

Lemma outcome_functional w l sid st1 st2 :
  outcome w l sid st1 → outcome w l sid st2 → st1 = st2.
Proof.
  intros [[? ->]|[(? & ? & ? & ->)|(? & ? & ->)]]
         [[? ->]|[(? & ? & ? & ->)|(? & ? & ->)]]; try done; tauto.
Qed.

Lemma outcome_Permutation w l l' sid st :
  l ≡ₚ l' → outcome w l sid st → outcome w l' sid st.
Proof.
  intros Hp.
  assert (Exists (fatal w sid) l ↔ Exists (fatal w sid) l') as HF.
  { by apply Exists_Permutation. }
  assert (Exists (succeeds w sid) l ↔ Exists (succeeds w sid) l') as HS.
  { by apply Exists_Permutation. }
  assert (complete_after w l sid ↔ complete_after w l' sid) as HC.
  { unfold complete_after. split; intros H i u Hu Hs;
      (destruct (H i u Hu Hs) as [[?|[Hin ?]]|?]; [by left; left| |by right]);
      left; right; (split; [|done]).
    - by rewrite <- Hp.
    - by rewrite Hp. }
  unfold outcome. rewrite HF, HS, HC. done.
Qed.

(** C2, amended.  A dispatched success sets the Task's [successful] flag
    and sets finished_on to the current time; it sets the status of the
    owning Stage to [successful] if every Task of the Stage (this one
    included, with its flag set) is successful or does not have to succeed,
    and leaves the Stages as they are if not.  From every store, the status
    of every Stage at the end of a run is the same for every order of its
    assignments, provided none of them is a submission, each is made to a
    Task of its own, and none to a Task that has succeeded before. *)
Theorem success_completes_the_stage d w :
  wf w →
  (∀ tid t, tasks w !! tid = Some t → _status t ≠ TaskStatus.successful →
     ∃ w' t',
       set_status (S (S d)) tid TaskStatus.successful w = Ok (tt, w') ∧
       tasks w' !! tid = Some t' ∧
       successful t' = true ∧ finished_on t' = Some (clock w) ∧
       clock w' = clock w ∧
       (stage_complete (tasks w') (stage t) →
        stage_status w' (stage t) = Some StageStatus.successful) ∧
       (¬ stage_complete (tasks w') (stage t) → stages w' = stages w)) ∧
  (∀ l l',
     Forall no_submission l → NoDup l.*1 →
     (∀ e, e ∈ l → ∃ u, tasks w !! e.1 = Some u ∧ successful u = false) →
     l ≡ₚ l' →
     ∃ w1 w2,
       assign_all (S (S d)) l w = Ok (tt, w1) ∧
       assign_all (S (S d)) l' w = Ok (tt, w2) ∧
       ∀ sid, stage_status w1 sid = stage_status w2 sid).
Proof.
  intros Hwf. split.
  - intros tid t Ht Hne. destruct (Hwf tid t Ht) as [s Hs].
    pose proof (set_status_successful (S d) tid t s w Ht Hs Hne) as Hrun.
    cbn zeta in Hrun. eexists _, _. split; [exact Hrun|]. cbn.
    split; [apply lookup_insert_eq|]. do 3 (split; [done|]).
    destruct (all_successful_or_optional _) eqn:Hall.
    + split; [|by intros Hc; apply all_successful_or_optional_spec in Hall].
      intros _. unfold stage_status. cbn. by rewrite lookup_insert_eq.
    + split; [|done]. intros Hc%all_successful_or_optional_spec.
      cbn [stage set_finished_on set_successful set__status] in Hc. congruence.
  - intros l l' Hcomp Hnd Hfresh Hp.
    destruct (stage_outcome d l w) as (w1 & Hrun1 & Hout1); [done..|].
    destruct (stage_outcome d l' w) as (w2 & Hrun2 & Hout2); [done|..].
    { by rewrite <- Hp. }
    { by rewrite <- Hp. }
    { intros e He. apply Hfresh. by rewrite Hp. }
    exists w1, w2. do 2 (split; [done|]). intros sid.
    eapply outcome_functional; [|apply Hout2].
    eapply outcome_Permutation; [exact Hp|apply Hout1].
Qed.

Lemma success_completes_witness :
  (∃ w' t',
     set_status 2 2 TaskStatus.successful
       (one_stage 2 [succeeded 90 (fresh 0); optional (fresh 0); fresh 0]) = Ok (tt, w') ∧
     tasks w' !! 2%nat = Some t' ∧
     successful t' = true ∧ finished_on t' = Some 100%nat ∧
     clock w' = 100%nat ∧
     (stage_complete (tasks w') 0 →
      stage_status w' 0 = Some StageStatus.successful) ∧
     (¬ stage_complete (tasks w') 0 →
      stages w' = stages (one_stage 2 [succeeded 90 (fresh 0); optional (fresh 0); fresh 0]))) ∧
  (∃ w1 w2,
     assign_all 2 [(0%nat, TaskStatus.successful); (1%nat, TaskStatus.failed);
                   (2%nat, TaskStatus.successful)]
       (one_stage 2 [fresh 0; optional (fresh 0); fresh 0]) = Ok (tt, w1) ∧
     assign_all 2 [(2%nat, TaskStatus.successful); (1%nat, TaskStatus.failed);
                   (0%nat, TaskStatus.successful)]
       (one_stage 2 [fresh 0; optional (fresh 0); fresh 0]) = Ok (tt, w2) ∧
     ∀ sid, stage_status w1 sid = stage_status w2 sid).
Proof.
  split.
  - destruct (success_completes_the_stage 0
                (one_stage 2 [succeeded 90 (fresh 0); optional (fresh 0); fresh 0]))
      as [Hone _]; [apply (bool_decide_unpack _); by vm_compute|].
    apply (Hone 2%nat (fresh 0)); by vm_compute.
  - destruct (success_completes_the_stage 0
                (one_stage 2 [fresh 0; optional (fresh 0); fresh 0]))
      as [_ Hany]; [apply (bool_decide_unpack _); by vm_compute|].
    apply Hany.
    + repeat constructor; by vm_compute.
    + apply (bool_decide_unpack _). by vm_compute.
    + intros e He. repeat (apply elem_of_cons in He as [->|He]);
        [by eexists..|by apply elem_of_nil in He].
    + etrans; [apply perm_swap|]. etrans; [apply perm_skip, perm_swap|].
      etrans; [apply perm_swap|]. done.
Defined.

(** C2 as stated fails: the same six assignments, Task 2 being submitted
    once Task 1 has succeeded, leave the Stage [running] when Task 0 fails
    for good first and [failed] when it fails last. *)
Lemma completion_order_changes_the_stage :
  ∃ w1 w2,
    Permutation
      [(0%nat, TaskStatus.submitted); (1%nat, TaskStatus.submitted);
       (0%nat, TaskStatus.failed); (1%nat, TaskStatus.successful);
       (2%nat, TaskStatus.submitted); (2%nat, TaskStatus.successful)]
      [(0%nat, TaskStatus.submitted); (1%nat, TaskStatus.submitted);
       (1%nat, TaskStatus.successful); (2%nat, TaskStatus.submitted);
       (2%nat, TaskStatus.successful); (0%nat, TaskStatus.failed)] ∧
    assign_all 2 [(0%nat, TaskStatus.submitted); (1%nat, TaskStatus.submitted);
                  (0%nat, TaskStatus.failed); (1%nat, TaskStatus.successful);
                  (2%nat, TaskStatus.submitted); (2%nat, TaskStatus.successful)]
      (one_stage 1 [fresh 0; fresh 0; fresh 0]) = Ok (tt, w1) ∧
    assign_all 2 [(0%nat, TaskStatus.submitted); (1%nat, TaskStatus.submitted);
                  (1%nat, TaskStatus.successful); (2%nat, TaskStatus.submitted);
                  (2%nat, TaskStatus.successful); (0%nat, TaskStatus.failed)]
      (one_stage 1 [fresh 0; fresh 0; fresh 0]) = Ok (tt, w2) ∧
    stage_status w1 0 = Some StageStatus.running ∧
    stage_status w2 0 = Some StageStatus.failed.
Proof.
  eexists _, _. split.
  { do 2 apply perm_skip.
    etrans; [apply perm_swap|]. apply perm_skip.
    etrans; [apply perm_swap|]. apply perm_skip. apply perm_swap. }
  split; [vm_compute; reflexivity|].
  split; [vm_compute; reflexivity|].
  split; vm_compute; reflexivity.
Qed.

(** The two other conditions of the amended claim are needed as well.  A
    Task that completes twice: the Stage ends as its last completion
    leaves it. *)
Lemma completing_twice_depends_on_the_order :
  ∃ w1 w2,
    assign_all 2 [(0%nat, TaskStatus.failed); (0%nat, TaskStatus.successful)]
      (one_stage 1 [fresh 0]) = Ok (tt, w1) ∧
    assign_all 2 [(0%nat, TaskStatus.successful); (0%nat, TaskStatus.failed)]
      (one_stage 1 [fresh 0]) = Ok (tt, w2) ∧
    stage_status w1 0 = Some StageStatus.successful ∧
    stage_status w2 0 = Some StageStatus.failed.
Proof.
  eexists _, _.
  split; [vm_compute; reflexivity|].
  split; [vm_compute; reflexivity|].
  split; vm_compute; reflexivity.
Qed.

(** A Task that has succeeded before and is running again: its flag is
    still set, so its final failure is outvoted by a later success. *)
Lemma earlier_success_depends_on_the_order :
  ∃ w1 w2,
    assign_all 2 [(0%nat, TaskStatus.failed); (1%nat, TaskStatus.successful)]
      (one_stage 1 [set__status TaskStatus.waiting (succeeded 90 (fresh 0)); fresh 0])
    = Ok (tt, w1) ∧
    assign_all 2 [(1%nat, TaskStatus.successful); (0%nat, TaskStatus.failed)]
      (one_stage 1 [set__status TaskStatus.waiting (succeeded 90 (fresh 0)); fresh 0])
    = Ok (tt, w2) ∧
    stage_status w1 0 = Some StageStatus.successful ∧
    stage_status w2 0 = Some StageStatus.failed.
Proof.
  eexists _, _.
  split; [vm_compute; reflexivity|].
  split; [vm_compute; reflexivity|].
  split; vm_compute; reflexivity.
Qed.

(** * The search of the task graph *)


Section bfs.
Context (G : gmap nat (list nat)).










End bfs.






(** * Beyond the claims: runs of assignments, paths, the profile cache *)

(** * What the assignments keep *)



























(** * What one assignment sends, logs and stamps *)













(** * The artifact paths *)









(** * The profile, read and read again *)

Section profile_cache.
Context (json_load : string → option Profile).






End profile_cache.




(** * The successors, on the graph the call returns *)






(** * The input files *)


